(** * ros2_bag_to_csv: flattening of ROS 2 messages and merging of tables

    A shallow embedding of
      - [src/src/ros2_bag_to_pandas/get_data.py]
        ([unpack_message], [read_msg_data_from_bag],
        [read_msg_from_bag_as_dataframe],
        [read_unpackaged_message_from_bag_as_dataframe],
        [find_rosbag_files]),
      - [src/scripts/join_csv_files.py] ([join_csv_files]),
      - [src/scripts/distribute_csv_files.py] (the loop of [main]),
    and the properties of the specification settled against it. *)

From Stdlib Require Import List String Ascii ZArith Lia Bool Arith.
From Stdlib Require Import Permutation Sorted.
From Stdlib Require Import DecimalString DecimalNat.
Import ListNotations.

Local Open Scope string_scope.
Local Open Scope list_scope.

Set Warnings "-register-all".

(* ================================================================== *)
(** * Python values *)
(* ================================================================== *)

(** Leaf values of a message: what a slot of a primitive type holds. *)
Inductive scalar : Type :=
| SInt (z : Z)
| SBool (b : bool)
| SFloat (bits : Z)            (* IEEE 754 binary64, as its bit pattern *)
| SStr (s : string)
| SBytes (bs : list Z).

(** The Python objects [unpack_message] can meet.  The code looks at two
    things only: [hasattr(x, "__slots__")] and [isinstance(x, list)].
      - [Msg fields]: an object with [__slots__]; [fields] lists the slots
        in the order of [__slots__], each with the value [getattr] returns;
      - [PyList items]: a Python [list];
      - [Scalar s]: an [int], [float], [bool], [str] or [bytes];
      - [Opaque tag]: any other object ([None], a [dict], a [tuple], a
        numpy array, ...): neither slots nor a list. *)
Inductive value : Type :=
| Scalar (s : scalar)
| Msg (fields : list (string * value))
| PyList (items : list value)
| Opaque (tag : nat).

Definition hasattr_slots (v : value) : bool :=
  match v with Msg _ => true | _ => false end.

(* ================================================================== *)
(** * Dictionaries and Series *)
(* ================================================================== *)

(** A Python [dict] keeps its keys in the order of first insertion; an
    assignment to a key already present replaces the value in place. *)
Definition dict (A : Type) : Type := list (string * A).

Fixpoint dict_set {A} (k : string) (v : A) (d : dict A) : dict A :=
  match d with
  | [] => [(k, v)]
  | (k', v') :: d' =>
      if String.eqb k' k then (k', v) :: d' else (k', v') :: dict_set k v d'
  end.

Fixpoint dict_get {A} (k : string) (d : dict A) : option A :=
  match d with
  | [] => None
  | (k', v') :: d' => if String.eqb k' k then Some v' else dict_get k d'
  end.

Definition dict_keys {A} (d : dict A) : list string := map fst d.

(** [pd.Series(d)]: the index is the key list of [d], in order.  The
    values are carried as the dictionary has them; the dtype pandas gives
    the Series (integers next to a float are stored as floats) is not
    modelled. *)
Definition series : Type := dict value.

(** [d.update(s)] for a Series [s]: one assignment per index label. *)
Definition dict_update {A} (d : dict A) (s : dict A) : dict A :=
  fold_left (fun acc kv => dict_set (fst kv) (snd kv) acc) s d.

(** [f"{idx}"]: the decimal numeral of a list index. *)
Definition str_of_nat (n : nat) : string :=
  NilEmpty.string_of_uint (Nat.to_uint n).

(** [f"{prefix}{slot}[{idx}]"]. *)
Definition item_key (prefix slot : string) (idx : nat) : string :=
  prefix ++ slot ++ "[" ++ str_of_nat idx ++ "]".

(* ================================================================== *)
(** * [unpack_message] *)
(* ================================================================== *)

(** get_data.py, lines 223-249.  The two inner [fix] are the loop over
    [msg.__slots__] (accumulator [unpacked_data]) and the loop over
    [enumerate(value)]. *)
Fixpoint unpack_message (msg : value) (prefix : string) : series :=
  match msg with
  | Msg fields =>
      (fix slots_loop (fs : list (string * value)) (unpacked_data : dict value)
         {struct fs} : dict value :=
         match fs with
         | [] => unpacked_data
         | (slot, v) :: fs' =>
             slots_loop fs'
               match v with
               | Msg _ =>
                   fold_left
                     (fun acc kv =>
                        dict_set (prefix ++ slot ++ fst kv) (snd kv) acc)
                     (unpack_message v "") unpacked_data
               | PyList items =>
                   (fix items_loop (its : list value) (idx : nat)
                      (acc : dict value) {struct its} : dict value :=
                      match its with
                      | [] => acc
                      | item :: its' =>
                          items_loop its' (S idx)
                            match item with
                            | Msg _ =>
                                dict_update acc
                                  (unpack_message item
                                     (item_key prefix slot idx))
                            | _ => dict_set (item_key prefix slot idx) item acc
                            end
                      end) items 0 unpacked_data
               | _ => dict_set (prefix ++ slot) v unpacked_data
               end
         end) fields []
  | _ => []
  end.

(** The body of the loop over [enumerate(value)], one iteration. *)
Definition unpack_item (prefix slot : string) (idx : nat) (item : value)
    (acc : dict value) : dict value :=
  match item with
  | Msg _ => dict_update acc (unpack_message item (item_key prefix slot idx))
  | _ => dict_set (item_key prefix slot idx) item acc
  end.

Fixpoint unpack_items (prefix slot : string) (its : list value) (idx : nat)
    (acc : dict value) : dict value :=
  match its with
  | [] => acc
  | item :: its' =>
      unpack_items prefix slot its' (S idx) (unpack_item prefix slot idx item acc)
  end.

(** The body of the loop over [msg.__slots__], one iteration. *)
Definition unpack_slot (prefix slot : string) (v : value)
    (unpacked_data : dict value) : dict value :=
  match v with
  | Msg _ =>
      fold_left
        (fun acc kv => dict_set (prefix ++ slot ++ fst kv) (snd kv) acc)
        (unpack_message v "") unpacked_data
  | PyList items => unpack_items prefix slot items 0 unpacked_data
  | _ => dict_set (prefix ++ slot) v unpacked_data
  end.

Fixpoint unpack_slots (prefix : string) (fs : list (string * value))
    (unpacked_data : dict value) : dict value :=
  match fs with
  | [] => unpacked_data
  | (slot, v) :: fs' =>
      unpack_slots prefix fs' (unpack_slot prefix slot v unpacked_data)
  end.

Definition vint (z : Z) : value := Scalar (SInt z).

(* ================================================================== *)
(** * Structural paths and column keys *)
(* ================================================================== *)

(** A structural path: the field names and list indices that lead from
    the message to one of the values [unpack_message] stores. *)
Inductive step : Type :=
| Field (name : string)
| Index (i : nat).

Definition path : Type := list step.

Definition step_str (st : step) : string :=
  match st with
  | Field name => name
  | Index i => "[" ++ str_of_nat i ++ "]"
  end.

Fixpoint path_str (p : path) : string :=
  match p with
  | [] => ""
  | st :: p' => step_str st ++ path_str p'
  end.

(** The key the code builds for a path: the prefix, then the field names
    and bracketed indices, one after the other. *)
Definition column_key (prefix : string) (p : path) : string :=
  prefix ++ path_str p.

Definition under (sts : list step) (pv : path * value) : path * value :=
  (sts ++ fst pv, snd pv).

(** The assignments [unpacked_data[...] = ...] that [unpack_message]
    performs, in program order, each with the structural path of the value
    it stores: the same traversal as [unpack_message], without the
    dictionary. *)
Fixpoint leaves (msg : value) : list (path * value) :=
  match msg with
  | Msg fields =>
      (fix slots_leaves (fs : list (string * value)) : list (path * value) :=
         match fs with
         | [] => []
         | (slot, v) :: fs' =>
             match v with
             | Msg _ => map (under [Field slot]) (leaves v)
             | PyList items =>
                 (fix items_leaves (its : list value) (idx : nat)
                    : list (path * value) :=
                    match its with
                    | [] => []
                    | item :: its' =>
                        match item with
                        | Msg _ =>
                            map (under [Field slot; Index idx]) (leaves item)
                        | _ => [([Field slot; Index idx], item)]
                        end ++ items_leaves its' (S idx)
                    end) items 0
             | _ => [([Field slot], v)]
             end ++ slots_leaves fs'
         end) fields
  | _ => []
  end.

Definition item_leaves (slot : string) (idx : nat) (item : value)
    : list (path * value) :=
  match item with
  | Msg _ => map (under [Field slot; Index idx]) (leaves item)
  | _ => [([Field slot; Index idx], item)]
  end.

Fixpoint items_leaves (slot : string) (its : list value) (idx : nat)
    : list (path * value) :=
  match its with
  | [] => []
  | item :: its' => item_leaves slot idx item ++ items_leaves slot its' (S idx)
  end.

Definition slot_leaves (slot : string) (v : value) : list (path * value) :=
  match v with
  | Msg _ => map (under [Field slot]) (leaves v)
  | PyList items => items_leaves slot items 0
  | _ => [([Field slot], v)]
  end.

Fixpoint slots_leaves (fs : list (string * value)) : list (path * value) :=
  match fs with
  | [] => []
  | (slot, v) :: fs' => slot_leaves slot v ++ slots_leaves fs'
  end.

(** The entry a leaf contributes. *)
Definition leaf_entry (prefix : string) (pv : path * value) : string * value :=
  (column_key prefix (fst pv), snd pv).

(** No field name of a composite is a prefix of another field name of the
    same composite (in particular the names are pairwise different). *)
Fixpoint names_prefix_free (names : list string) : bool :=
  match names with
  | [] => true
  | s :: rest =>
      forallb (fun t => negb (String.prefix s t) && negb (String.prefix t s))
        rest
      && names_prefix_free rest
  end.

Fixpoint prefix_free (msg : value) : bool :=
  match msg with
  | Msg fields =>
      names_prefix_free (map fst fields)
      && (fix all_fields (fs : list (string * value)) : bool :=
            match fs with
            | [] => true
            | (_, v) :: fs' => prefix_free v && all_fields fs'
            end) fields
  | PyList items =>
      (fix all_items (its : list value) : bool :=
         match its with
         | [] => true
         | item :: its' => prefix_free item && all_items its'
         end) items
  | _ => true
  end.

(** The key the claim's naming scheme asks for at a composite-to-composite
    boundary: a dot between the field and the nested key. *)
Definition dotted_key (prefix slot nested_key : string) : string :=
  prefix ++ slot ++ "." ++ nested_key.

(** The shapes the specification calls structured (a composite or a
    sequence) and scalar. *)
Definition is_structured (v : value) : bool :=
  match v with Msg _ | PyList _ => true | _ => false end.

Definition is_scalar (v : value) : bool :=
  match v with Scalar _ => true | _ => false end.

(** The claim of pairwise distinct keys: two different structural paths
    of a message never have the same column key. *)
Definition keys_pairwise_distinct (msg : value) (prefix : string) : Prop :=
  forall p1 v1 p2 v2,
    In (p1, v1) (leaves msg) -> In (p2, v2) (leaves msg) ->
    p1 <> p2 -> column_key prefix p1 <> column_key prefix p2.

(** [enumerate(value)]. *)
Definition enumerate {A} (l : list A) : list (nat * A) :=
  combine (seq 0 (List.length l)) l.

(** The rule of the specification for one element of a sequence: a scalar
    is stored under the key of its index, a structured element (composite
    or sequence) is flattened recursively with that key as prefix. *)
Definition sequence_rule (prefix slot : string) (idx : nat) (item : value)
    (acc : dict value) : Prop :=
  (is_scalar item = true ->
   unpack_item prefix slot idx item acc
   = dict_set (item_key prefix slot idx) item acc)
  /\ (is_structured item = true ->
      unpack_item prefix slot idx item acc
      = dict_update acc (unpack_message item (item_key prefix slot idx))).

(* ================================================================== *)
(** * Exceptions *)
(* ================================================================== *)

Inductive exn : Type :=
| ValueError (msg : string)
| TypeError (msg : string)
| RuntimeError (msg : string).

(** The outcome of a call: a value, or a raised exception. *)
Inductive result (A : Type) : Type :=
| Ok (a : A)
| Raise (e : exn).

Arguments Ok {A} a.
Arguments Raise {A} e.

Definition exn_message (e : exn) : string :=
  match e with
  | ValueError msg | TypeError msg | RuntimeError msg => msg
  end.

(* ================================================================== *)
(** * Tables (pandas DataFrames indexed by timestamp) *)
(* ================================================================== *)

(** A cell; [None] is the missing value (NaN).  A value is carried as
    its source has it: the dtype of the column it is stored in (a column
    of integers that gets a null becomes a column of floats) is not
    modelled, so the properties of tables are stated on labels,
    timestamps and nulls. *)
Definition cell : Type := option value.

(** A row: its index label (the timestamp, in nanoseconds) and its cells,
    one per column, in the order of the columns. *)
Definition row : Type := (Z * list cell)%type.

Record DataFrame : Type := mkDataFrame {
  columns : list string;
  rows : list row
}.

(** The cell of a row in the column labelled [c]; null when the frame has
    no such column. *)
Fixpoint cell_at (cols : list string) (cells : list cell) (c : string) : cell :=
  match cols, cells with
  | col :: cols', x :: cells' =>
      if String.eqb col c then x else cell_at cols' cells' c
  | _, _ => None
  end.

(** [reindex(columns=new_cols)] of one row: labels the frame does not have
    are filled with null. *)
Definition reindex (new_cols old_cols : list string) (r : row) : row :=
  (fst r, map (cell_at old_cols (snd r)) new_cols).

Definition mem_string (c : string) (l : list string) : bool :=
  existsb (String.eqb c) l.

(** Union of labels, keeping the order of first appearance. *)
Definition add_labels (acc new : list string) : list string :=
  fold_left (fun acc c => if mem_string c acc then acc else acc ++ [c]) new acc.

Definition union_columns (dfs : list DataFrame) : list string :=
  fold_left (fun acc df => add_labels acc (columns df)) dfs [].

(** The rows of all frames, in frame order then row order, each reindexed
    to the columns [cols]. *)
Definition stacked_rows (cols : list string) (dfs : list DataFrame) : list row :=
  flat_map (fun df => map (reindex cols (columns df)) (rows df)) dfs.

(** [pd.concat(dataframes, axis=0)]: outer union of the columns, rows
    appended, null where a frame has no such column; raises on an empty
    list of frames.  The common dtype of a column is not modelled. *)
Definition pd_concat (dfs : list DataFrame) : result DataFrame :=
  match dfs with
  | [] => Raise (ValueError "No objects to concatenate")
  | _ :: _ =>
      Ok {| columns := union_columns dfs;
            rows := stacked_rows (union_columns dfs) dfs |}
  end.

(** The [kind] argument of [sort_index]; the default is [quicksort]. *)
Inductive sort_kind : Type := quicksort | mergesort | heapsort | stable.

(** The sorting routine of the library, by kind. *)
Definition sorter : Type := sort_kind -> list row -> list row.

(** [df.sort_index(kind=kind)]. *)
Definition sort_index (sort : sorter) (kind : sort_kind) (df : DataFrame)
    : DataFrame :=
  {| columns := columns df; rows := sort kind (rows df) |}.

Definition ts_le (r1 r2 : row) : Prop := (fst r1 <= fst r2)%Z.

(** A stable sort by timestamp: insertion from the right, each row placed
    before the first row whose timestamp is not smaller. *)
Fixpoint insert_row (r : row) (l : list row) : list row :=
  match l with
  | [] => [r]
  | h :: l' => if (fst r <=? fst h)%Z then r :: l else h :: insert_row r l'
  end.

Fixpoint stable_sort (l : list row) : list row :=
  match l with
  | [] => []
  | r :: l' => insert_row r (stable_sort l')
  end.

(** Rows with the timestamp [t], in order. *)
Definition rows_at (t : Z) (l : list row) : list row :=
  filter (fun r => (fst r =? t)%Z) l.


(** What the library documents of [sort_index]: for every kind the result
    is the input reordered by ascending index; the kinds [mergesort] and
    [stable] are the stable ones. *)
Record sort_contract (sort : sorter) : Prop := mkSortContract {
  sort_perm : forall kind l, Permutation l (sort kind l);
  sort_sorted : forall kind l, Sorted ts_le (sort kind l);
  sort_stable_kinds : forall l,
      sort mergesort l = stable_sort l /\ sort stable l = stable_sort l
}.

(** [s.endswith(suffix)]. *)
Definition endswith (s suffix : string) : bool :=
  (String.length suffix <=? String.length s)%nat
  && String.eqb
       (substring (String.length s - String.length suffix)
          (String.length suffix) s)
       suffix.

(** [sub in s]. *)
Definition str_contains (sub s : string) : bool :=
  match index 0 sub s with
  | Some _ => true
  | None => false
  end.

(** The files [join_csv_files] reads: a name ending in [.csv] that
    contains [rosbag2]. *)
Definition is_bag_csv (filename : string) : bool :=
  endswith filename ".csv" && str_contains "rosbag2" filename.

(** A directory: its entries in the order of [os.listdir], each CSV file
    with the table [pd.read_csv(file_path, index_col=timestamp_column)]
    gives for it. *)
Definition csv_directory : Type := list (string * DataFrame).

Definition csv_dataframes (directory : csv_directory) : list DataFrame :=
  map snd (filter (fun f => is_bag_csv (fst f)) directory).

(** join_csv_files.py, lines 12-41.  The result is the table written by
    [to_csv], or the exception of [pd.concat]; the two lines printed are
    left out. *)
Definition join_csv_files (sort : sorter) (directory : csv_directory)
    : result DataFrame :=
  let dataframes := csv_dataframes directory in
  match pd_concat dataframes with
  | Raise e => Raise e
  | Ok concatenated_df => Ok (sort_index sort quicksort concatenated_df)
  end.

(** A sorting routine that meets the contract and is not stable for the
    kinds that promise no stability: it sorts the reversed input. *)
Definition reversing_sort : sorter :=
  fun kind l =>
    match kind with
    | mergesort | stable => stable_sort l
    | quicksort | heapsort => stable_sort (rev l)
    end.

(* ================================================================== *)
(** * Bags and the reading operations *)
(* ================================================================== *)

(** One record of a bag: its topic, its timestamp, and the message its
    payload deserialises to ([get_message] and [deserialize_message] are
    taken as done). *)
Record bag_record : Type := mkRecord {
  rec_topic : string;
  rec_msg : value;
  rec_time : Z
}.

(** The storage: what [reader.open] finds at a path.  [Raise e] is a bag
    that cannot be opened; [Ok records] gives the records [read_next]
    returns, in order. *)
Definition storage : Type := string -> result (list bag_record).

(** A call that prints: the lines written to the standard output, then
    the outcome. *)
Definition printing (A : Type) : Type := (list string * result A)%type.

Definition on_topic (topic_name : string) (r : bag_record) : bool :=
  String.eqb (rec_topic r) topic_name.

(** get_data.py, lines 12-58. *)
Definition read_msg_data_from_bag (st : storage) (bag_path topic_name : string)
    : printing (list value) :=
  match st bag_path with
  | Raise e => (["Failed to open bag file: " ++ exn_message e]%string, Ok [])
  | Ok records => ([], Ok (map rec_msg (filter (on_topic topic_name) records)))
  end.

(** What [read_msg_from_bag_as_dataframe] returns: the empty Python list,
    or a frame with the index [timestamp] and the one column [message]. *)
Inductive read_value : Type :=
| EmptyList
| MessageFrame (msgs : list (Z * value)).

Definition topic_messages (topic_name : string) (records : list bag_record)
    : list (Z * value) :=
  map (fun r => (rec_time r, rec_msg r)) (filter (on_topic topic_name) records).

(** get_data.py, lines 61-120. *)
Definition read_msg_from_bag_as_dataframe (st : storage)
    (bag_path topic_name : string) : printing read_value :=
  match st bag_path with
  | Raise e => (["Failed to open bag file: " ++ exn_message e]%string, Ok EmptyList)
  | Ok records => ([], Ok (MessageFrame (topic_messages topic_name records)))
  end.

(** [msgs["message"]]: a list cannot be indexed by a string. *)
Definition getitem_message (msgs : read_value) : result (list (Z * value)) :=
  match msgs with
  | EmptyList =>
      Raise (TypeError "list indices must be integers or slices, not str")
  | MessageFrame rows => Ok rows
  end.

(** What [Series.apply] returns for a function that returns a Series: on
    an empty Series, the empty Series itself (named [message]); else the
    frame of the returned Series, one row each. *)
Inductive applied : Type :=
| EmptySeries (name : string)
| Expanded (df : DataFrame).

(** The row of a Series in a frame with the columns [cols]: labels the
    Series does not have are null. *)
Definition series_row (cols : list string) (t : Z) (s : series) : row :=
  (t, map (fun c => dict_get c s) cols).

(** The Series [unpack_message] returns for each message, with the
    timestamp of the message. *)
Definition unpacked_rows (prefix : string) (msgs : list (Z * value))
    : list (Z * series) :=
  map (fun tm => (fst tm, unpack_message (snd tm) prefix)) msgs.

(** The labels of these Series, in the order of first appearance. *)
Definition unpacked_columns (prefix : string) (msgs : list (Z * value))
    : list string :=
  fold_left (fun acc ts => add_labels acc (dict_keys (snd ts)))
    (unpacked_rows prefix msgs) [].

(** [msgs["message"].apply(lambda x: unpack_message(x, prefix=prefix))]:
    one row per message, the columns being the labels of the returned
    Series, null where a Series has no such label.  The dtype of a column
    is not modelled. *)
Definition apply_unpack (prefix : string) (msgs : list (Z * value)) : applied :=
  match msgs with
  | [] => EmptySeries "message"
  | _ :: _ =>
      Expanded
        {| columns := unpacked_columns prefix msgs;
           rows := map (fun ts => series_row (unpacked_columns prefix msgs)
                                    (fst ts) (snd ts))
                     (unpacked_rows prefix msgs) |}
  end.

(** [msgs.drop(columns=["message"]).join(other)]: the left frame has the
    index of [msgs] and no column; the join is a left join on the index,
    so a left row is paired with every row of [other] of the same index
    label. *)
Definition join_on_index (index : list Z) (other : applied) : DataFrame :=
  match other with
  | EmptySeries name =>
      {| columns := [name]; rows := map (fun t => (t, [None])) index |}
  | Expanded df =>
      {| columns := columns df;
         rows := flat_map (fun t => rows_at t (rows df)) index |}
  end.

(** [pd.concat([msgs.drop(columns=["message"]), other], axis=1)] for
    [other] with the index of [msgs]: the columns of [other], row by row. *)
Definition concat_columns (index : list Z) (other : applied) : DataFrame :=
  match other with
  | EmptySeries name =>
      {| columns := [name]; rows := map (fun t => (t, [None])) index |}
  | Expanded df => df
  end.

(** One entry of [conversion_keywords]. *)
Record conversion : Type := mkConversion {
  conv_topic : string;
  conv_output_file : string;
  conv_prefix : string
}.

(** get_data.py, lines 122-164. *)
Definition read_unpackaged_message_from_bag_as_dataframe (st : storage)
    (bag_path topic_name : string) (conv : conversion) : printing DataFrame :=
  let (out, r) := read_msg_from_bag_as_dataframe st bag_path topic_name in
  match r with
  | Raise e => (out, Raise e)
  | Ok msgs =>
      match getitem_message msgs with
      | Raise e => (out, Raise e)
      | Ok rows =>
          (out, Ok (join_on_index (map fst rows)
                      (apply_unpack (conv_prefix conv) rows)))
      end
  end.

(* ------------------------------------------------------------------ *)
(** ** Paths as strings *)
(* ------------------------------------------------------------------ *)

Definition is_slash (c : ascii) : bool := Ascii.eqb c "/".

(** [s.rstrip("/")]. *)
Fixpoint rstrip_slash (s : string) : string :=
  match s with
  | "" => ""
  | String c s' =>
      match rstrip_slash s' with
      | "" => if is_slash c then "" else String c ""
      | r => String c r
      end
  end.

(** [posixpath.split]: the part up to the last slash, with it, and the
    part after it. *)
Fixpoint split_at_last_slash (p : string) : string * string :=
  match p with
  | "" => ("", "")
  | String c p' =>
      let (head, tail) := split_at_last_slash p' in
      match head with
      | "" => if is_slash c then (String c "", tail) else ("", String c tail)
      | _ => (String c head, tail)
      end
  end.

(** [os.path.dirname]. *)
Definition dirname (p : string) : string :=
  let head := fst (split_at_last_slash p) in
  match rstrip_slash head with
  | "" => head
  | stripped => stripped
  end.

(** [os.path.basename]. *)
Definition basename (p : string) : string := snd (split_at_last_slash p).

(** [s.replace(old, "")], for a non-empty [old]; [skip] counts the
    characters of a match still to drop. *)
Fixpoint remove_all (old : string) (skip : nat) (s : string) : string :=
  match s with
  | "" => ""
  | String c s' =>
      match skip with
      | S k => remove_all old k s'
      | O =>
          if String.prefix old s
          then remove_all old (String.length old - 1) s'
          else String c (remove_all old 0 s')
      end
  end.

(** [os.path.join(a, b)] for two components. *)
Definition path_join (a b : string) : string :=
  if String.prefix "/" b then b
  else if String.eqb a "" || endswith a "/" then a ++ b
  else a ++ "/" ++ b.

(** distribute_csv_files.py, lines 32-37. *)
Definition output_file_of (bag_path : string) (conv : conversion) : string :=
  path_join (dirname bag_path)
    ("../" ++ remove_all ".db3" 0 (basename bag_path) ++ conv_output_file conv).

(* ------------------------------------------------------------------ *)
(** ** The batch of [distribute_csv_files.main] *)
(* ------------------------------------------------------------------ *)

(** What the batch has done so far: the lines printed and the tables
    written by [to_csv], oldest first. *)
Record world : Type := mkWorld {
  stdout : list string;
  written : list (string * DataFrame)
}.

(** The body of the [try], lines 29-51: the lines printed, and the table
    written or the exception raised. *)
Definition process_bag (st : storage) (conv : conversion) (bag_path : string)
    : printing (string * DataFrame) :=
  let output_file := output_file_of bag_path conv in
  let (out, r) := read_msg_from_bag_as_dataframe st bag_path (conv_topic conv) in
  let printed := ("Processing " ++ bag_path)%string :: out in
  match r with
  | Raise e => (printed, Raise e)
  | Ok msgs =>
      match getitem_message msgs with
      | Raise e => (printed, Raise e)
      | Ok rows =>
          (printed ++ ["Plot saved as " ++ output_file]%string,
           Ok (output_file,
               concat_columns (map fst rows)
                 (apply_unpack (conv_prefix conv) rows)))
      end
  end.

(** One turn of the inner loop: the [try] with its [except Exception]. *)
Definition main_step (st : storage) (conv : conversion) (w : world)
    (bag_path : string) : world :=
  match process_bag st conv bag_path with
  | (printed, Ok file) =>
      {| stdout := stdout w ++ printed; written := written w ++ [file] |}
  | (printed, Raise e) =>
      {| stdout := stdout w ++ printed
                   ++ ["Failed to process " ++ bag_path ++ ": "
                       ++ exn_message e]%string;
         written := written w |}
  end.

(** distribute_csv_files.py, lines 26-53: for each conversion, for each
    bag. *)
Definition main_loop (st : storage) (conversion_keywords : list conversion)
    (bag_files : list string) (w : world) : world :=
  fold_left
    (fun w conv => fold_left (main_step st conv) bag_files w)
    conversion_keywords w.

(** The tables one bag contributes under one conversion. *)
Definition outputs_of (st : storage) (conv : conversion) (bag_path : string)
    : list (string * DataFrame) :=
  match snd (process_bag st conv bag_path) with
  | Ok file => [file]
  | Raise _ => []
  end.

(* ================================================================== *)
(** * The file system and [find_rosbag_files] *)
(* ================================================================== *)

(** A file, or a directory with its entries in listing order. *)
Inductive fs_node : Type :=
| FsFile
| FsDir (entries : list (string * fs_node)).

(** A path, as the list of its components: [os.path.join] appends. *)
Definition fs_path : Type := list string.

Definition is_dir (n : fs_node) : bool :=
  match n with FsDir _ => true | FsFile => false end.

Fixpoint find_entry (name : string) (entries : list (string * fs_node))
    : option fs_node :=
  match entries with
  | [] => None
  | (name', n) :: entries' =>
      if String.eqb name' name then Some n else find_entry name entries'
  end.

(** A place in the tree: the node, and the directories above it, nearest
    first (empty at the root of the file system). *)
Record position : Type := mkPosition {
  ancestors : list fs_node;
  here : fs_node
}.

(** One component of a path, followed from a directory: [.] stays, [..]
    goes to the parent (the root is its own parent), a name goes to the
    entry of that name. *)
Definition step_into (pos : position) (c : string) : option position :=
  match here pos with
  | FsFile => None
  | FsDir entries =>
      if String.eqb c "." then Some pos
      else if String.eqb c ".." then
        match ancestors pos with
        | [] => Some pos
        | up :: above => Some {| ancestors := above; here := up |}
        end
      else
        match find_entry c entries with
        | Some child =>
            Some {| ancestors := here pos :: ancestors pos; here := child |}
        | None => None
        end
  end.

Fixpoint resolve (pos : position) (p : fs_path) : option position :=
  match p with
  | [] => Some pos
  | c :: p' =>
      match step_into pos c with
      | Some pos' => resolve pos' p'
      | None => None
      end
  end.

(** [os.path.exists], for a path relative to the working directory. *)
Definition path_exists (cwd : position) (p : fs_path) : bool :=
  match resolve cwd p with
  | Some _ => true
  | None => false
  end.

Definition dir_names (entries : list (string * fs_node)) : list string :=
  map fst (filter (fun e => is_dir (snd e)) entries).

Definition file_names (entries : list (string * fs_node)) : list string :=
  map fst (filter (fun e => negb (is_dir (snd e))) entries).

(** [os.walk(top)], top-down: the directory, then its subdirectories in
    listing order, each as [(root, dirs, files)]. *)
Fixpoint os_walk (root : fs_path) (n : fs_node)
    : list (fs_path * list string * list string) :=
  match n with
  | FsFile => []
  | FsDir entries =>
      (root, dir_names entries, file_names entries)
      :: (fix walk_entries (es : list (string * fs_node))
            : list (fs_path * list string * list string) :=
            match es with
            | [] => []
            | (name, child) :: es' =>
                os_walk (root ++ [name]) child ++ walk_entries es'
            end) entries
  end.

(** [os.path.join(root, '../', 'DATAIGNORE')]. *)
Definition data_ignore_file (root : fs_path) : fs_path :=
  root ++ [".."; "DATAIGNORE"].

(** The body of the loop over [files], for one directory of the walk. *)
Definition bag_files_in (cwd : position) (root : fs_path) (files : list string)
    : list fs_path :=
  flat_map
    (fun file =>
       if negb (endswith file ".db3") then []
       else if path_exists cwd (data_ignore_file root) then []
       else [root ++ [file]])
    files.

(** get_data.py, lines 167-198 (the line printed for a skipped file is
    left out). *)
Definition find_rosbag_files (cwd : position) (from_dir : fs_path)
    : list fs_path :=
  match resolve cwd from_dir with
  | Some top =>
      flat_map (fun visit => bag_files_in cwd (fst (fst visit)) (snd visit))
        (os_walk from_dir (here top))
  | None => []
  end.

(** A directory carries the opt-out marker. *)
Definition carries_marker (cwd : position) (d : fs_path) : bool :=
  path_exists cwd (d ++ ["DATAIGNORE"]).

(** The path [p] lies below the directory [d], at any depth. *)
Definition lies_below (p d : fs_path) : Prop :=
  exists rest, rest <> [] /\ p = d ++ rest.

(** The claim of the specification on the discovery: no returned path
    lies below a directory that carries the marker. *)
Definition no_bag_below_marker (cwd : position) (from_dir : fs_path) : Prop :=
  forall p d,
    In p (find_rosbag_files cwd from_dir) -> lies_below p d ->
    carries_marker cwd d = false.

(* ================================================================== *)
(** * Notions used in the proofs *)
(* ================================================================== *)

(** The loop [for kv in s: acc[f(key)] = value]. *)
Definition set_all {A} (f : string -> string) (s d : dict A) : dict A :=
  fold_left (fun acc kv => dict_set (f (fst kv)) (snd kv) acc) s d.

(** Characters of a decimal numeral. *)
Definition is_digit (c : ascii) : bool :=
  match c with
  | "0" | "1" | "2" | "3" | "4" | "5" | "6" | "7" | "8" | "9" => true
  | _ => false
  end%char.

(** The string is made of decimal digits. *)
Fixpoint all_digits (s : string) : bool :=
  match s with
  | "" => true
  | String c s' => is_digit c && all_digits s'
  end.

(** The column keys of a list of leaves. *)
Definition leaf_keys (prefix : string) (l : list (path * value))
    : list string :=
  map (fun pv => column_key prefix (fst pv)) l.

(** What the loop over the slots needs of a slot value: the property for a
    nested message, and for each item of a list. *)
Definition field_ok (Q : value -> Prop) (v : value) : Prop :=
  match v with
  | Msg _ => Q v
  | PyList items => Forall Q items
  | _ => True
  end.

(** The keys of the Series are the keys of the leaves, as sets. *)
Definition keys_agree (v : value) : Prop :=
  forall prefix k,
    In k (dict_keys (unpack_message v prefix))
    <-> In k (leaf_keys prefix (leaves v)).

(** If the keys of the leaves are pairwise different, the Series is the
    list of the leaves. *)
Definition exact_when_distinct (v : value) : Prop :=
  forall prefix,
    NoDup (leaf_keys prefix (leaves v)) ->
    unpack_message v prefix = map (leaf_entry prefix) (leaves v).

(** Prefix-free field names give pairwise different keys. *)
Definition distinct_when_prefix_free (v : value) : Prop :=
  prefix_free v = true -> NoDup (leaf_keys "" (leaves v)).

(* ================================================================== *)
(** * Sample messages, tables, bags and trees *)
(* ================================================================== *)

(** A field [_pose] with a nested field [_x], next to a field [_pose_x]. *)
Definition msg_pose_clash : value :=
  Msg [("_pose", Msg [("_x", vint 1)]); ("_pose_x", vint 2)].

(** Two tables with one row each, of the same timestamp. *)
Definition table_imu : DataFrame :=
  {| columns := ["imu_x"]; rows := [(2%Z, [Some (vint 1)])] |}.

Definition table_gps : DataFrame :=
  {| columns := ["gps_x"]; rows := [(2%Z, [Some (vint 2)])] |}.

Definition tie_directory : csv_directory :=
  [("rosbag2_imu.csv", table_imu); ("notes.txt", table_imu);
   ("rosbag2_gps.csv", table_gps)].

(** The tables of the merge example: [A] with the timestamps 5 and 1,
    [B] with the timestamp 3. *)
Definition table_a : DataFrame :=
  {| columns := ["a_x"; "a_y"];
     rows := [(5%Z, [Some (vint 50); Some (vint 51)]);
              (1%Z, [Some (vint 10); None])] |}.

Definition table_b : DataFrame :=
  {| columns := ["b_x"]; rows := [(3%Z, [Some (vint 30)])] |}.

Definition merge_directory : csv_directory :=
  [("rosbag2_a.csv", table_a); ("rosbag2_b.csv", table_b)].

(** Two messages of different key sets. *)
Definition msg_a : value := Msg [("a", vint 1)].

Definition msg_b : value := Msg [("b", vint 2)].

(** A bag with two records on the topic [/t], of different key sets, and
    a record on another topic. *)
Definition key_sets_storage : storage :=
  fun bag_path =>
    if String.eqb bag_path "run/rosbag2_0.db3"
    then Ok [mkRecord "/t" msg_a 1; mkRecord "/other" msg_b 5;
             mkRecord "/t" msg_b 2]
    else Raise (RuntimeError "No storage could be initialized").

Definition plain_conversion : conversion :=
  {| conv_topic := "/t"; conv_output_file := "t.csv"; conv_prefix := "" |}.

(** The conversion of a topic of which the sample bag has no record. *)
Definition idle_conversion : conversion :=
  {| conv_topic := "/none"; conv_output_file := "n.csv"; conv_prefix := "" |}.

(** The directory of a bag. *)
Definition bag_dir : fs_node :=
  FsDir [("metadata.yaml", FsFile); ("rosbag2_run_0.db3", FsFile)].

(** [data/DATAIGNORE], and a bag two levels below it. *)
Definition marked_tree : fs_node :=
  FsDir [("data",
          FsDir [("DATAIGNORE", FsFile);
                 ("exp", FsDir [("rosbag2_run", bag_dir)])])].

(** [data/ignored/DATAIGNORE] next to the bag directory
    [data/ignored/rosbag2_run], and a bag directory [data/kept/rosbag2_run]
    with no marker next to it. *)
Definition sorted_tree : fs_node :=
  FsDir [("data",
          FsDir [("ignored",
                  FsDir [("DATAIGNORE", FsFile); ("rosbag2_run", bag_dir)]);
                 ("kept", FsDir [("rosbag2_run", bag_dir)])])].

(** The working directory is the root of the tree. *)
Definition at_root (tree : fs_node) : position :=
  {| ancestors := []; here := tree |}.

(* ================================================================== *)
(** * The batch of [join_csv_files.main] *)
(* ================================================================== *)

(** The CSV files on disk: for each directory, here named by the
    canonical form of its path, its listing. *)
Definition csv_store : Type := string -> csv_directory.

Definition has_name (name : string) (f : string * DataFrame) : bool :=
  String.eqb (fst f) name.

(** A file written into a directory: it replaces the entry of that name,
    or is a new entry. *)
Definition write_entry (listing : csv_directory) (name : string)
    (df : DataFrame) : csv_directory :=
  if existsb (has_name name) listing
  then map (fun f => if has_name name f then (name, df) else f) listing
  else listing ++ [(name, df)].

(** [df.to_csv(directory + '/' + output_file)], for a plain file name
    [output_file]; [realdir] gives the canonical form of a directory path
    (two paths of one directory have the same). *)
Definition to_csv (realdir : string -> string) (fs : csv_store)
    (directory output_file : string) (df : DataFrame) : csv_store :=
  fun d =>
    if String.eqb d (realdir directory)
    then write_entry (fs d) output_file df
    else fs d.

(** [join_csv_files(directory, output_file)] with its effect on the disk:
    the disk afterwards, and the outcome. *)
Definition join_csv_files_on (realdir : string -> string) (sort : sorter)
    (fs : csv_store) (directory output_file : string)
    : csv_store * result unit :=
  match join_csv_files sort (fs (realdir directory)) with
  | Raise e => (fs, Raise e)
  | Ok concatenated_df =>
      (to_csv realdir fs directory output_file concatenated_df, Ok tt)
  end.

(** join_csv_files.py, lines 47-51: for each bag, the directory above the
    one of the bag is joined into [data.csv]; an exception ends the loop. *)
Fixpoint join_main (realdir : string -> string) (sort : sorter)
    (fs : csv_store) (bag_files : list string) : csv_store * result unit :=
  match bag_files with
  | [] => (fs, Ok tt)
  | bag_path :: rest =>
      let directory := (dirname bag_path ++ "/..")%string in
      match join_csv_files_on realdir sort fs directory "data.csv" with
      | (fs', Ok _) => join_main realdir sort fs' rest
      | (fs', Raise e) => (fs', Raise e)
      end
  end.

(** The directory [join_main] joins for a bag. *)
Definition joined_directory (realdir : string -> string) (bag_path : string)
    : string :=
  realdir (dirname bag_path ++ "/..")%string.

(* ================================================================== *)
(** * Further notions: the order of the labels, renamed keys *)
(* ================================================================== *)

(** An entry with its key renamed by [f]. *)
Definition rekey {A} (f : string -> string) (kv : string * A) : string * A :=
  (f (fst kv), snd kv).

(** The labels of the Series are the keys of the leaves, in the order of
    first occurrence. *)
Definition label_order (v : value) : Prop :=
  forall prefix,
    dict_keys (unpack_message v prefix)
    = add_labels [] (leaf_keys prefix (leaves v)).

(** The Series under a prefix is the Series under the empty prefix with
    the prefix put before every label. *)
Definition prefix_commutes (v : value) : Prop :=
  forall prefix,
    unpack_message v prefix
    = map (rekey (String.append prefix)) (unpack_message v "").

(** The character [c] does not occur in [s]. *)
Fixpoint lacks (c : ascii) (s : string) : bool :=
  match s with
  | "" => true
  | String x s' => negb (Ascii.eqb x c) && lacks c s'
  end.

(** The walk of the entries of a directory, one after the other. *)
Fixpoint walk_entries (root : fs_path) (es : list (string * fs_node))
    : list (fs_path * list string * list string) :=
  match es with
  | [] => []
  | (name, child) :: es' => os_walk (root ++ [name]) child ++ walk_entries root es'
  end.

(** The directories of a walk are the top directory or below it. *)
Definition walk_stays_below (n : fs_node) : Prop :=
  forall root visit,
    In visit (os_walk root n) -> exists names, fst (fst visit) = root ++ names.

(** A disk with tables in one directory only. *)
Definition one_run_store : csv_store :=
  fun d => if String.eqb d "run/a/.." then merge_directory else [].

(* ================================================================== *)
(** * Further notions: the keys of the fields of a composite *)
(* ================================================================== *)

(** No string of [l1] is in [l2]. *)
Definition disjoint_keys (l1 l2 : list string) : bool :=
  forallb (fun k => negb (mem_string k l2)) l1.

(** The lists are pairwise disjoint. *)
Fixpoint pairwise_disjoint (ls : list (list string)) : bool :=
  match ls with
  | [] => true
  | l :: rest => forallb (disjoint_keys l) rest && pairwise_disjoint rest
  end.

(** The keys one field of a composite contributes, relative to the
    composite: the field name, followed by the bracketed indices and the
    nested names of the values stored for it. *)
Definition field_keys (sv : string * value) : list string :=
  leaf_keys "" (slot_leaves (fst sv) (snd sv)).

(** At every composite the traversal of [unpack_message] enters (the
    message, a nested message, a message in a list), two different fields
    contribute no common key. *)
Fixpoint fields_disjoint (msg : value) : bool :=
  match msg with
  | Msg fields =>
      pairwise_disjoint (map field_keys fields)
      && (fix all_fields (fs : list (string * value)) : bool :=
            match fs with
            | [] => true
            | (_, v) :: fs' =>
                match v with
                | Msg _ => fields_disjoint v
                | PyList items =>
                    (fix all_items (its : list value) : bool :=
                       match its with
                       | [] => true
                       | item :: its' =>
                           match item with
                           | Msg _ => fields_disjoint item
                           | _ => true
                           end && all_items its'
                       end) items
                | _ => true
                end && all_fields fs'
            end) fields
  | _ => true
  end.

(** The same condition, for an item of a list and for the value of a
    field. *)
Definition item_disjoint (item : value) : bool :=
  match item with
  | Msg _ => fields_disjoint item
  | _ => true
  end.

Definition field_disjoint (v : value) : bool :=
  match v with
  | Msg _ => fields_disjoint v
  | PyList items => forallb item_disjoint items
  | _ => true
  end.

(** The condition holds exactly when the keys of the leaves are pairwise
    different. *)
Definition distinct_iff_disjoint (v : value) : Prop :=
  fields_disjoint v = true <-> NoDup (leaf_keys "" (leaves v)).

(** A message shaped like [sensor_msgs/Imu] and [sensor_msgs/CameraInfo]:
    the field [_angular_velocity] with the nested fields [_x], [_y], [_z]
    next to the field [_angular_velocity_covariance] (a numpy array), and
    the list [_d] next to the string [_distortion_model]. *)
Definition msg_imu : value :=
  Msg [("_header",
        Msg [("_stamp", Msg [("_sec", vint 1); ("_nanosec", vint 2)]);
             ("_frame_id", Scalar (SStr "imu"))]);
       ("_angular_velocity",
        Msg [("_x", vint 0); ("_y", vint 0); ("_z", vint 1)]);
       ("_angular_velocity_covariance", Opaque 0);
       ("_d", PyList [vint 3; vint 4]);
       ("_distortion_model", Scalar (SStr "plumb_bob"))].

(* ================================================================== *)
(** * Further notions: the shape of a row, an index already sorted *)
(* ================================================================== *)

(** The cell is null. *)
Definition is_null (c : cell) : bool :=
  match c with
  | None => true
  | Some _ => false
  end.

(** What the statements on tables say of a row: its timestamp, and which
    of its cells are null.  The library may store the value of a cell in
    another dtype than its source had (an integer column that gets a null
    becomes a float column); the timestamp of a row and its nulls do not
    depend on that. *)
Definition row_shape (r : row) : Z * list bool :=
  (fst r, map is_null (snd r)).

(** [index.is_monotonic_increasing]. *)
Fixpoint is_monotonic_increasing (l : list row) : bool :=
  match l with
  | [] => true
  | r :: l' =>
      match l' with
      | [] => true
      | h :: _ => (fst r <=? fst h)%Z
      end && is_monotonic_increasing l'
  end.

(** [sort_index] looks at the index first: a table whose index is already
    ascending is returned as it is, whatever the kind. *)
Definition sort_keeps_sorted (sort : sorter) : Prop :=
  forall kind l, Sorted ts_le l -> sort kind l = l.

(** A sorting routine that meets the contract, returns an ascending input
    as it is, and is not stable otherwise for the kinds that promise no
    stability. *)
Definition shortcut_sort : sorter :=
  fun kind l => if is_monotonic_increasing l then l else reversing_sort kind l.

(** A table with the columns of [table_a] and later timestamps. *)
Definition table_a_later : DataFrame :=
  {| columns := ["a_x"; "a_y"];
     rows := [(9%Z, [None; Some (vint 91)]);
              (7%Z, [Some (vint 70); Some (vint 71)])] |}.

(** Rows whose timestamps are not ascending, two of them with the
    timestamp 2. *)
Definition tie_rows : list row :=
  [(2%Z, [Some (vint 1); None]); (1%Z, [None; None]);
   (2%Z, [None; Some (vint 2)])].

(** The claim of the specification on [join_csv_files]: a table is
    produced; its rows are the rows of the concatenation, sorted by
    ascending timestamp, rows of equal timestamp in input order. *)
Definition join_is_stable_sort (sort : sorter) (directory : csv_directory)
    : Prop :=
  exists out,
    join_csv_files sort directory = Ok out
    /\ Permutation
         (map row_shape
            (stacked_rows (columns out) (csv_dataframes directory)))
         (map row_shape (rows out))
    /\ StronglySorted ts_le (rows out)
    /\ forall t,
         map row_shape (rows_at t (rows out))
         = map row_shape
             (rows_at t (stacked_rows (columns out) (csv_dataframes directory))).

(* ================================================================== *)
(** * Properties *)
(* ================================================================== *)

(* ------------------------------------------------------------------ *)
(** ** Strings *)
(* ------------------------------------------------------------------ *)

Lemma append_assoc (a b c : string) : ((a ++ b) ++ c = a ++ (b ++ c))%string.
Proof. induction a as [|x a IH]; cbn; [reflexivity | now rewrite IH]. Qed.

Lemma append_empty_r (a : string) : (a ++ "")%string = a.
Proof. induction a as [|x a IH]; cbn; [reflexivity | now rewrite IH]. Qed.

Lemma append_inv_head (a b c : string) : (a ++ b = a ++ c)%string -> b = c.
Proof.
  induction a as [|x a IH]; cbn; intros H; [exact H|].
  injection H as H. now apply IH.
Qed.

(** Two ways of cutting one string: one head is a prefix of the other. *)
Lemma append_eq_cases (a b c d : string) :
  (a ++ b = c ++ d)%string ->
  (exists r, c = (a ++ r)%string) \/ (exists r, a = (c ++ r)%string).
Proof.
  revert c; induction a as [|x a IH]; intros c H.
  - left. now exists c.
  - destruct c as [|y c].
    + right. now exists (String x a).
    + cbn in H. injection H as Hxy H. subst y.
      destruct (IH c H) as [[r Hr]|[r Hr]]; [left|right]; exists r; cbn;
        now rewrite <- Hr.
Qed.

Lemma prefix_spec (a b : string) :
  String.prefix a b = true <-> exists r, b = (a ++ r)%string.
Proof.
  revert b; induction a as [|x a IH]; intros b.
  - split; [intros _; now exists b | intros _; now destruct b].
  - destruct b as [|y b]; cbn.
    + split; [discriminate | intros [r Hr]; discriminate].
    + destruct (Ascii.ascii_dec x y) as [->|Hxy].
      * rewrite IH. split; intros [r Hr]; exists r.
        -- now rewrite Hr.
        -- now injection Hr.
      * split; [discriminate|]. intros [r Hr]. injection Hr as Hyx _.
        now subst.
Qed.

Lemma prefix_append (a r : string) : String.prefix a (a ++ r)%string = true.
Proof. apply prefix_spec. now exists r. Qed.

Lemma string_of_uint_digits (d : Decimal.uint) :
  all_digits (NilEmpty.string_of_uint d) = true.
Proof. induction d; cbn; auto. Qed.

Lemma str_of_nat_digits (n : nat) : all_digits (str_of_nat n) = true.
Proof. apply string_of_uint_digits. Qed.

Example str_of_nat_decimal :
  map str_of_nat [0; 7; 10; 123] = ["0"; "7"; "10"; "123"]%string.
Proof. reflexivity. Qed.

Lemma str_of_nat_inj (i j : nat) : str_of_nat i = str_of_nat j -> i = j.
Proof.
  unfold str_of_nat; intros H.
  apply Unsigned.to_uint_inj.
  assert (E : Some (Nat.to_uint i) = Some (Nat.to_uint j))
    by (rewrite <- !NilEmpty.usu; now rewrite H).
  now injection E.
Qed.

(** A numeral closed by a bracket determines the numeral. *)
Lemma digits_bracket_inj (s1 s2 r1 r2 : string) :
  all_digits s1 = true -> all_digits s2 = true ->
  (s1 ++ "]" ++ r1 = s2 ++ "]" ++ r2)%string -> s1 = s2 /\ r1 = r2.
Proof.
  revert s2; induction s1 as [|x s1 IH]; intros [|y s2] H1 H2 H; cbn in *.
  - injection H as H. now split.
  - injection H as Hy _. subst y. discriminate.
  - injection H as Hx _. subst x. discriminate.
  - injection H as Hxy H. subst y.
    apply andb_true_iff in H1 as [_ H1]. apply andb_true_iff in H2 as [_ H2].
    destruct (IH s2 H1 H2 H) as [-> ->]. now split.
Qed.

Lemma item_key_spec (prefix slot : string) (idx : nat) :
  item_key prefix slot idx = column_key prefix [Field slot; Index idx].
Proof.
  unfold item_key, column_key; cbn.
  now rewrite append_empty_r.
Qed.

Lemma path_str_app (p q : path) :
  path_str (p ++ q) = (path_str p ++ path_str q)%string.
Proof.
  induction p as [|st p IH]; cbn; [reflexivity|].
  now rewrite IH, append_assoc.
Qed.

Lemma column_key_app (prefix : string) (p q : path) :
  column_key prefix (p ++ q) = column_key (column_key prefix p) q.
Proof. unfold column_key. now rewrite path_str_app, append_assoc. Qed.

(* ------------------------------------------------------------------ *)
(** ** Dictionaries *)
(* ------------------------------------------------------------------ *)

Lemma mem_string_In (c : string) (l : list string) :
  mem_string c l = true <-> In c l.
Proof.
  unfold mem_string. rewrite existsb_exists. split.
  - intros [x [Hx E]]. apply String.eqb_eq in E. now subst.
  - intros H. exists c. split; [exact H | apply String.eqb_refl].
Qed.

Section Dict.
Context {A : Type}.
Implicit Types (d s : dict A) (k : string) (v : A).

Lemma dict_keys_set k v d k' :
  In k' (dict_keys (dict_set k v d)) <-> k' = k \/ In k' (dict_keys d).
Proof.
  induction d as [|[k0 v0] d IH]; cbn.
  - intuition.
  - destruct (String.eqb_spec k0 k) as [->|Hne]; cbn.
    + intuition.
    + unfold dict_keys in IH. rewrite IH. intuition.
Qed.

Lemma dict_set_fresh k v d :
  ~ In k (dict_keys d) -> dict_set k v d = d ++ [(k, v)].
Proof.
  induction d as [|[k0 v0] d IH]; cbn; intros Hn; [reflexivity|].
  destruct (String.eqb_spec k0 k) as [->|Hne]; [tauto|].
  rewrite IH; [reflexivity | tauto].
Qed.

Lemma dict_set_NoDup k v d :
  NoDup (dict_keys d) -> NoDup (dict_keys (dict_set k v d)).
Proof.
  induction d as [|[k0 v0] d IH]; cbn; intros Hd.
  - constructor; [tauto | constructor].
  - destruct (String.eqb_spec k0 k) as [->|Hne]; cbn; [exact Hd|].
    inversion Hd as [|? ? Hin Hd']; subst. constructor; [|now apply IH].
    intros Hc. apply dict_keys_set in Hc. destruct Hc; [congruence|tauto].
Qed.

Lemma set_all_keys f s : forall d k',
  In k' (dict_keys (set_all f s d))
  <-> In k' (dict_keys d) \/ In k' (map f (dict_keys s)).
Proof.
  unfold set_all.
  induction s as [|[k v] s IH]; intros d k'; cbn [fold_left].
  - cbn. tauto.
  - rewrite IH, dict_keys_set. unfold dict_keys; cbn. intuition congruence.
Qed.

Lemma set_all_NoDup f s : forall d,
  NoDup (dict_keys d) -> NoDup (dict_keys (set_all f s d)).
Proof.
  unfold set_all.
  induction s as [|[k v] s IH]; intros d Hd; cbn [fold_left]; [exact Hd|].
  apply IH. now apply dict_set_NoDup.
Qed.

(** When no key is written twice, the dictionary is the list of the
    assignments. *)
Lemma set_all_fresh f s : forall d,
  NoDup (dict_keys d ++ map f (dict_keys s)) ->
  set_all f s d = d ++ map (fun kv => (f (fst kv), snd kv)) s.
Proof.
  unfold set_all.
  induction s as [|[k v] s IH]; intros d Hnd; cbn [fold_left map fst snd].
  - now rewrite app_nil_r.
  - cbn in Hnd.
    assert (Hk : ~ In (f k) (dict_keys d)).
    { intros Hin. apply NoDup_remove_2 in Hnd. apply Hnd.
      apply in_or_app. now left. }
    rewrite dict_set_fresh by exact Hk.
    rewrite IH.
    + now rewrite <- app_assoc.
    + unfold dict_keys. rewrite map_app; cbn. rewrite <- app_assoc; cbn.
      exact Hnd.
Qed.
End Dict.

Lemma dict_keys_app {A} (d1 d2 : dict A) :
  dict_keys (d1 ++ d2) = dict_keys d1 ++ dict_keys d2.
Proof. apply map_app. Qed.

Lemma dict_update_set_all {A} (d s : dict A) :
  dict_update d s = set_all (fun k => k) s d.
Proof. reflexivity. Qed.

Lemma NoDup_map_injective {A B} (f : A -> B) (l : list A) :
  (forall x y, f x = f y -> x = y) -> NoDup l -> NoDup (map f l).
Proof.
  intros Hf Hl. apply NoDup_map_NoDup_ForallPairs; [|exact Hl].
  intros x y _ _. apply Hf.
Qed.

Lemma NoDup_map_eq {A B} (f : A -> B) (l : list A) (x y : A) :
  NoDup (map f l) -> In x l -> In y l -> f x = f y -> x = y.
Proof.
  induction l as [|a l IH]; cbn; [tauto|].
  intros Hnd [->|Hx] [->|Hy] Hxy; inversion Hnd as [|? ? Hn Hnd']; subst.
  - reflexivity.
  - exfalso. apply Hn. rewrite Hxy. now apply in_map.
  - exfalso. apply Hn. rewrite <- Hxy. now apply in_map.
  - now apply IH.
Qed.

(* ------------------------------------------------------------------ *)
(** ** Induction on messages *)
(* ------------------------------------------------------------------ *)

Lemma value_ind_nested (P : value -> Prop)
    (HS : forall s, P (Scalar s))
    (HM : forall fields, Forall (fun sv => P (snd sv)) fields -> P (Msg fields))
    (HL : forall items, Forall P items -> P (PyList items))
    (HO : forall tag, P (Opaque tag)) :
  forall v, P v.
Proof.
  fix IH 1. intros [s|fields|items|tag].
  - apply HS.
  - apply HM. revert fields. fix IHf 1. intros [|[slot v] fs].
    + constructor.
    + constructor; [apply IH | apply IHf].
  - apply HL. revert items. fix IHi 1. intros [|item its].
    + constructor.
    + constructor; [apply IH | apply IHi].
  - apply HO.
Qed.

(* ------------------------------------------------------------------ *)
(** ** The loops of [unpack_message], unfolded *)
(* ------------------------------------------------------------------ *)

Lemma unpack_items_loop prefix slot its : forall idx acc,
  (fix items_loop (its : list value) (idx : nat) (acc : dict value)
     {struct its} : dict value :=
     match its with
     | [] => acc
     | item :: its' =>
         items_loop its' (S idx)
           match item with
           | Msg _ =>
               dict_update acc (unpack_message item (item_key prefix slot idx))
           | _ => dict_set (item_key prefix slot idx) item acc
           end
     end) its idx acc = unpack_items prefix slot its idx acc.
Proof.
  induction its as [|item its IH]; intros idx acc; [reflexivity|].
  cbn [unpack_items]. rewrite <- IH. reflexivity.
Qed.

Lemma unpack_message_Msg fields prefix :
  unpack_message (Msg fields) prefix = unpack_slots prefix fields [].
Proof.
  cbn [unpack_message]. generalize (@nil (string * value)).
  induction fields as [|[slot v] fs IH]; intros d; [reflexivity|].
  cbn [unpack_slots]. rewrite <- IH. f_equal.
  destruct v; try reflexivity.
  cbn [unpack_slot]. apply unpack_items_loop.
Qed.

Lemma items_leaves_loop slot its : forall idx,
  (fix items_leaves (its : list value) (idx : nat) : list (path * value) :=
     match its with
     | [] => []
     | item :: its' =>
         match item with
         | Msg _ => map (under [Field slot; Index idx]) (leaves item)
         | _ => [([Field slot; Index idx], item)]
         end ++ items_leaves its' (S idx)
     end) its idx = items_leaves slot its idx.
Proof.
  induction its as [|item its IH]; intros idx; [reflexivity|].
  cbn [items_leaves]. rewrite <- IH. reflexivity.
Qed.

Lemma leaves_Msg fields : leaves (Msg fields) = slots_leaves fields.
Proof.
  cbn [leaves].
  induction fields as [|[slot v] fs IH]; [reflexivity|].
  cbn [slots_leaves]. rewrite <- IH.
  apply (f_equal2 (@app _)); [|reflexivity].
  destruct v; try reflexivity.
  cbn [slot_leaves]. apply items_leaves_loop.
Qed.

(* ------------------------------------------------------------------ *)
(** ** Keys of the leaves *)
(* ------------------------------------------------------------------ *)

Lemma leaf_keys_app prefix l1 l2 :
  leaf_keys prefix (l1 ++ l2) = leaf_keys prefix l1 ++ leaf_keys prefix l2.
Proof. apply map_app. Qed.

Lemma leaf_keys_entries prefix l :
  dict_keys (map (leaf_entry prefix) l) = leaf_keys prefix l.
Proof. unfold dict_keys, leaf_keys. rewrite map_map. reflexivity. Qed.

Lemma leaf_keys_under prefix sts l :
  leaf_keys prefix (map (under sts) l) = leaf_keys (column_key prefix sts) l.
Proof.
  unfold leaf_keys. rewrite map_map. apply map_ext. intros [p v]; cbn.
  apply column_key_app.
Qed.

Lemma leaf_entries_under prefix sts l :
  map (leaf_entry prefix) (map (under sts) l)
  = map (leaf_entry (column_key prefix sts)) l.
Proof.
  rewrite map_map. apply map_ext. intros [p v]; unfold leaf_entry; cbn.
  now rewrite column_key_app.
Qed.

(** Keys under a prefix are the keys under the empty prefix, prefixed. *)
Lemma leaf_keys_prefix prefix l :
  leaf_keys prefix l = map (String.append prefix) (leaf_keys "" l).
Proof. unfold leaf_keys. rewrite map_map. reflexivity. Qed.

Lemma leaf_entries_prefix prefix l :
  map (leaf_entry prefix) l
  = map (fun kv => ((prefix ++ fst kv)%string, snd kv)) (map (leaf_entry "") l).
Proof. rewrite map_map. reflexivity. Qed.

Lemma column_key_field prefix slot :
  column_key prefix [Field slot] = (prefix ++ slot)%string.
Proof. unfold column_key; cbn. now rewrite append_empty_r. Qed.

Lemma value_ind_fields (Q : value -> Prop)
    (Hleaf : forall v, hasattr_slots v = false -> Q v)
    (Hmsg : forall fields,
        Forall (fun sv => field_ok Q (snd sv)) fields -> Q (Msg fields)) :
  forall v, Q v.
Proof.
  intros v. enough (H : Q v /\ field_ok Q v) by apply H.
  induction v as [s|fields IH|items IH|tag] using value_ind_nested.
  - split; [now apply Hleaf | exact I].
  - assert (HQ : Q (Msg fields)).
    { apply Hmsg. eapply Forall_impl; [|exact IH]. now intros sv [_ H]. }
    now split.
  - split; [now apply Hleaf|].
    cbn. eapply Forall_impl; [|exact IH]. now intros it [H _].
  - split; [now apply Hleaf | exact I].
Qed.

Lemma unpack_item_keys prefix slot idx item acc k :
  keys_agree item ->
  In k (dict_keys (unpack_item prefix slot idx item acc))
  <-> In k (dict_keys acc) \/ In k (leaf_keys prefix (item_leaves slot idx item)).
Proof.
  intros Hitem. unfold keys_agree in Hitem.
  assert (Hother :
    In k (dict_keys (dict_set (item_key prefix slot idx) item acc))
    <-> In k (dict_keys acc)
        \/ In k (leaf_keys prefix [([Field slot; Index idx], item)])).
  { rewrite dict_keys_set, item_key_spec. cbn. intuition congruence. }
  destruct item as [s|fields|items|tag]; try exact Hother.
  cbn [unpack_item item_leaves].
  rewrite dict_update_set_all, set_all_keys, map_id, Hitem.
  now rewrite leaf_keys_under, item_key_spec.
Qed.

Lemma unpack_items_keys prefix slot its :
  Forall keys_agree its ->
  forall idx acc k,
    In k (dict_keys (unpack_items prefix slot its idx acc))
    <-> In k (dict_keys acc)
        \/ In k (leaf_keys prefix (items_leaves slot its idx)).
Proof.
  induction 1 as [|item its Hitem _ IH]; intros idx acc k; cbn [unpack_items items_leaves].
  - cbn. tauto.
  - rewrite IH, unpack_item_keys by exact Hitem.
    rewrite leaf_keys_app, in_app_iff. tauto.
Qed.

Lemma unpack_slot_keys prefix slot v acc k :
  field_ok keys_agree v ->
  In k (dict_keys (unpack_slot prefix slot v acc))
  <-> In k (dict_keys acc) \/ In k (leaf_keys prefix (slot_leaves slot v)).
Proof.
  intros Hv.
  assert (Hother :
    In k (dict_keys (dict_set (prefix ++ slot) v acc))
    <-> In k (dict_keys acc) \/ In k (leaf_keys prefix [([Field slot], v)])).
  { rewrite dict_keys_set. cbn. rewrite column_key_field. intuition congruence. }
  destruct v as [s|fields|items|tag]; try exact Hother.
  - cbn [unpack_slot slot_leaves].
    change (fold_left _ ?s ?d) with (set_all (fun k => prefix ++ slot ++ k)%string s d).
    rewrite set_all_keys, leaf_keys_under, column_key_field.
    rewrite (leaf_keys_prefix (prefix ++ slot)).
    rewrite !in_map_iff.
    split; (intros [H|[x [Hx Hin]]]; [now left|right]);
      exists x; (split; [|now apply Hv]); rewrite <- Hx.
    + apply append_assoc.
    + symmetry. apply append_assoc.
  - cbn [unpack_slot slot_leaves]. now apply unpack_items_keys.
Qed.

Lemma unpack_slots_keys prefix fs :
  Forall (fun sv => field_ok keys_agree (snd sv)) fs ->
  forall acc k,
    In k (dict_keys (unpack_slots prefix fs acc))
    <-> In k (dict_keys acc) \/ In k (leaf_keys prefix (slots_leaves fs)).
Proof.
  induction 1 as [|[slot v] fs Hv _ IH]; intros acc k; cbn [unpack_slots slots_leaves].
  - cbn. tauto.
  - rewrite IH, unpack_slot_keys by exact Hv.
    rewrite leaf_keys_app, in_app_iff. tauto.
Qed.

(** The keys of the Series are the keys of the leaves. *)
Lemma unpack_message_keys (msg : value) : keys_agree msg.
Proof.
  induction msg as [v Hv|fields IH] using value_ind_fields; intros prefix k.
  - destruct v; try discriminate; cbn; tauto.
  - rewrite unpack_message_Msg, leaves_Msg, unpack_slots_keys by exact IH.
    cbn. tauto.
Qed.

(* ------------------------------------------------------------------ *)
(** ** The Series when no key is written twice *)
(* ------------------------------------------------------------------ *)

Lemma unpack_item_exact prefix slot idx item acc :
  exact_when_distinct item ->
  NoDup (dict_keys acc ++ leaf_keys prefix (item_leaves slot idx item)) ->
  unpack_item prefix slot idx item acc
  = acc ++ map (leaf_entry prefix) (item_leaves slot idx item).
Proof.
  intros Hitem.
  assert (Hother :
    NoDup (dict_keys acc ++ leaf_keys prefix [([Field slot; Index idx], item)]) ->
    dict_set (item_key prefix slot idx) item acc
    = acc ++ map (leaf_entry prefix) [([Field slot; Index idx], item)]).
  { intros Hnd. cbn in Hnd. rewrite <- item_key_spec in Hnd.
    rewrite dict_set_fresh.
    - unfold leaf_entry; cbn [map fst snd]. now rewrite <- item_key_spec.
    - apply NoDup_remove_2 in Hnd. now rewrite app_nil_r in Hnd. }
  destruct item as [s|fields|items|tag]; try exact Hother.
  cbn [unpack_item item_leaves]. intros Hnd.
  rewrite leaf_keys_under, <- item_key_spec in Hnd.
  rewrite leaf_entries_under, <- item_key_spec.
  rewrite dict_update_set_all.
  rewrite Hitem by (now apply NoDup_app_remove_l in Hnd).
  rewrite set_all_fresh by (now rewrite map_id, leaf_keys_entries).
  f_equal. rewrite map_map. apply map_ext. now intros [p v].
Qed.

Lemma unpack_items_exact prefix slot its :
  Forall exact_when_distinct its ->
  forall idx acc,
    NoDup (dict_keys acc ++ leaf_keys prefix (items_leaves slot its idx)) ->
    unpack_items prefix slot its idx acc
    = acc ++ map (leaf_entry prefix) (items_leaves slot its idx).
Proof.
  induction 1 as [|item its Hitem _ IH]; intros idx acc Hnd;
    cbn [unpack_items items_leaves] in *.
  - cbn. now rewrite app_nil_r.
  - rewrite leaf_keys_app, app_assoc in Hnd.
    rewrite unpack_item_exact
      by (try exact Hitem; now apply NoDup_app_remove_r in Hnd).
    rewrite IH.
    + now rewrite map_app, app_assoc.
    + now rewrite dict_keys_app, leaf_keys_entries.
Qed.

Lemma unpack_slot_exact prefix slot v acc :
  field_ok exact_when_distinct v ->
  NoDup (dict_keys acc ++ leaf_keys prefix (slot_leaves slot v)) ->
  unpack_slot prefix slot v acc
  = acc ++ map (leaf_entry prefix) (slot_leaves slot v).
Proof.
  intros Hv.
  assert (Hother :
    NoDup (dict_keys acc ++ leaf_keys prefix [([Field slot], v)]) ->
    dict_set (prefix ++ slot) v acc
    = acc ++ map (leaf_entry prefix) [([Field slot], v)]).
  { intros Hnd. cbn in Hnd. rewrite column_key_field in Hnd.
    rewrite dict_set_fresh.
    - unfold leaf_entry; cbn [map fst snd]. now rewrite column_key_field.
    - apply NoDup_remove_2 in Hnd. now rewrite app_nil_r in Hnd. }
  destruct v as [s|fields|items|tag]; try exact Hother.
  - cbn [unpack_slot slot_leaves field_ok] in *. intros Hnd.
    rewrite leaf_keys_under, column_key_field in Hnd.
    rewrite leaf_entries_under, column_key_field.
    change (fold_left _ ?s ?d)
      with (set_all (fun k => prefix ++ slot ++ k)%string s d).
    assert (Hin : NoDup (leaf_keys "" (leaves (Msg fields)))).
    { apply NoDup_app_remove_l in Hnd. rewrite leaf_keys_prefix in Hnd.
      now apply NoDup_map_inv in Hnd. }
    rewrite (Hv "" Hin).
    rewrite set_all_fresh.
    + f_equal. rewrite (leaf_entries_prefix (prefix ++ slot)).
      apply map_ext. intros [k x]; cbn. now rewrite append_assoc.
    + rewrite leaf_keys_entries.
      replace (map (fun k => prefix ++ slot ++ k)%string
                 (leaf_keys "" (leaves (Msg fields))))
        with (leaf_keys (prefix ++ slot) (leaves (Msg fields))); [exact Hnd|].
      rewrite leaf_keys_prefix. apply map_ext. intros k.
      apply append_assoc.
  - cbn [unpack_slot slot_leaves]. now apply unpack_items_exact.
Qed.

Lemma unpack_slots_exact prefix fs :
  Forall (fun sv => field_ok exact_when_distinct (snd sv)) fs ->
  forall acc,
    NoDup (dict_keys acc ++ leaf_keys prefix (slots_leaves fs)) ->
    unpack_slots prefix fs acc
    = acc ++ map (leaf_entry prefix) (slots_leaves fs).
Proof.
  induction 1 as [|[slot v] fs Hv _ IH]; intros acc Hnd;
    cbn [unpack_slots slots_leaves] in *.
  - cbn. now rewrite app_nil_r.
  - rewrite leaf_keys_app, app_assoc in Hnd.
    rewrite unpack_slot_exact
      by (try exact Hv; now apply NoDup_app_remove_r in Hnd).
    rewrite IH.
    + now rewrite map_app, app_assoc.
    + now rewrite dict_keys_app, leaf_keys_entries.
Qed.

(** With pairwise different keys, every assignment adds an entry: the
    Series lists the leaves, in the order of the traversal. *)
Lemma unpack_message_exact (msg : value) : exact_when_distinct msg.
Proof.
  induction msg as [v Hv|fields IH] using value_ind_fields; intros prefix Hnd.
  - destruct v; try discriminate; reflexivity.
  - rewrite unpack_message_Msg, leaves_Msg in *.
    now rewrite unpack_slots_exact.
Qed.

(* ------------------------------------------------------------------ *)
(** ** Keys of messages with prefix-free field names *)
(* ------------------------------------------------------------------ *)

Lemma prefix_free_Msg fields :
  prefix_free (Msg fields)
  = names_prefix_free (map fst fields)
    && forallb (fun sv => prefix_free (snd sv)) fields.
Proof.
  cbn [prefix_free]. f_equal.
  induction fields as [|[slot v] fs IH]; [reflexivity|].
  cbn [forallb snd]. now rewrite <- IH.
Qed.

Lemma prefix_free_PyList items :
  prefix_free (PyList items) = forallb prefix_free items.
Proof.
  cbn [prefix_free].
  induction items as [|item its IH]; [reflexivity|].
  cbn [forallb]. now rewrite <- IH.
Qed.

Lemma in_leaf_keys_empty k l :
  In k (leaf_keys "" l) <-> exists pv, In pv l /\ k = path_str (fst pv).
Proof.
  unfold leaf_keys. rewrite in_map_iff.
  split; intros [pv [H1 H2]]; exists pv; cbn in *; intuition congruence.
Qed.

Lemma item_leaves_form slot idx item pv :
  In pv (item_leaves slot idx item) ->
  exists r, path_str (fst pv) = (slot ++ "[" ++ str_of_nat idx ++ "]" ++ r)%string.
Proof.
  assert (Hother : In pv [([Field slot; Index idx], item)] ->
    exists r, path_str (fst pv)
              = (slot ++ "[" ++ str_of_nat idx ++ "]" ++ r)%string).
  { intros [<-|[]]. exists ""%string. cbn [path_str step_str fst].
    now rewrite append_empty_r. }
  destruct item as [s|fields|items|tag]; try exact Hother.
  cbn [item_leaves]. rewrite in_map_iff. intros [[p v] [<- _]].
  exists (path_str p). cbn. f_equal. f_equal. apply append_assoc.
Qed.

Lemma items_leaves_form slot its : forall idx pv,
  In pv (items_leaves slot its idx) ->
  exists j r, idx <= j
    /\ path_str (fst pv) = (slot ++ "[" ++ str_of_nat j ++ "]" ++ r)%string.
Proof.
  induction its as [|item its IH]; intros idx pv; cbn [items_leaves].
  - intros [].
  - rewrite in_app_iff. intros [H|H].
    + destruct (item_leaves_form _ _ _ _ H) as [r Hr]. exists idx, r. auto.
    + destruct (IH _ _ H) as [j [r [Hj Hr]]]. exists j, r. split; [lia|auto].
Qed.

Lemma slot_leaves_form slot v pv :
  In pv (slot_leaves slot v) ->
  exists r, path_str (fst pv) = (slot ++ r)%string.
Proof.
  assert (Hother : In pv [([Field slot], v)] ->
    exists r, path_str (fst pv) = (slot ++ r)%string).
  { intros [<-|[]]. exists ""%string. reflexivity. }
  destruct v as [s|fields|items|tag]; try exact Hother; cbn [slot_leaves].
  - rewrite in_map_iff. intros [[p x] [<- _]]. exists (path_str p). reflexivity.
  - intros H. destruct (items_leaves_form _ _ _ _ H) as [j [r [_ Hr]]].
    eexists. exact Hr.
Qed.

Lemma slots_leaves_form fs pv :
  In pv (slots_leaves fs) ->
  exists slot r, In slot (map fst fs) /\ path_str (fst pv) = (slot ++ r)%string.
Proof.
  induction fs as [|[slot v] fs IH]; cbn [slots_leaves]; [intros []|].
  rewrite in_app_iff. intros [H|H].
  - destruct (slot_leaves_form _ _ _ H) as [r Hr]. exists slot, r. cbn. auto.
  - destruct (IH H) as [s [r [Hs Hr]]]. exists s, r. cbn. auto.
Qed.

Lemma leaf_keys_under_NoDup sts l :
  NoDup (leaf_keys "" l) -> NoDup (leaf_keys "" (map (under sts) l)).
Proof.
  intros H. rewrite leaf_keys_under, leaf_keys_prefix.
  apply NoDup_map_injective; [|exact H].
  intros x y. apply append_inv_head.
Qed.

Lemma NoDup_singleton {A} (a : A) : NoDup [a].
Proof. constructor; [intros [] | constructor]. Qed.

Lemma item_leaves_NoDup slot idx item :
  distinct_when_prefix_free item -> prefix_free item = true ->
  NoDup (leaf_keys "" (item_leaves slot idx item)).
Proof.
  intros Hitem Hpf.
  destruct item as [s|fields|items|tag]; try apply NoDup_singleton.
  cbn [item_leaves]. apply leaf_keys_under_NoDup. now apply Hitem.
Qed.

Lemma items_leaves_NoDup slot its :
  Forall distinct_when_prefix_free its -> forallb prefix_free its = true ->
  forall idx, NoDup (leaf_keys "" (items_leaves slot its idx)).
Proof.
  induction 1 as [|item its Hitem _ IH]; intros Hpf idx; cbn [items_leaves].
  - constructor.
  - cbn in Hpf. apply andb_true_iff in Hpf as [Hpf1 Hpf2].
    rewrite leaf_keys_app. apply NoDup_app.
    + now apply item_leaves_NoDup.
    + now apply IH.
    + intros k H1 H2.
      apply in_leaf_keys_empty in H1 as [pv1 [H1 ->]].
      apply in_leaf_keys_empty in H2 as [pv2 [H2 E]].
      apply item_leaves_form in H1 as [r1 Hr1].
      apply items_leaves_form in H2 as [j [r2 [Hj Hr2]]].
      rewrite Hr1, Hr2 in E.
      apply append_inv_head in E. cbn in E. injection E as E.
      apply digits_bracket_inj in E as [E _]; try apply str_of_nat_digits.
      apply str_of_nat_inj in E. lia.
Qed.

Lemma slot_leaves_NoDup slot v :
  field_ok distinct_when_prefix_free v -> prefix_free v = true ->
  NoDup (leaf_keys "" (slot_leaves slot v)).
Proof.
  intros Hv Hpf.
  destruct v as [s|fields|items|tag]; try apply NoDup_singleton;
    cbn [slot_leaves field_ok] in *.
  - apply leaf_keys_under_NoDup. now apply Hv.
  - rewrite prefix_free_PyList in Hpf. now apply items_leaves_NoDup.
Qed.

Lemma names_prefix_free_head slot names s :
  names_prefix_free (slot :: names) = true -> In s names ->
  String.prefix slot s = false /\ String.prefix s slot = false.
Proof.
  cbn. intros H Hs. apply andb_true_iff in H as [H _].
  rewrite forallb_forall in H. specialize (H s Hs).
  apply andb_true_iff in H as [H1 H2].
  now apply negb_true_iff in H1, H2.
Qed.

Lemma slots_leaves_NoDup fs :
  Forall (fun sv => field_ok distinct_when_prefix_free (snd sv)) fs ->
  names_prefix_free (map fst fs) = true ->
  forallb (fun sv => prefix_free (snd sv)) fs = true ->
  NoDup (leaf_keys "" (slots_leaves fs)).
Proof.
  induction 1 as [|[slot v] fs Hv _ IH]; intros Hnames Hpf; cbn [slots_leaves].
  - constructor.
  - cbn [forallb snd] in Hpf. apply andb_true_iff in Hpf as [Hpf1 Hpf2].
    rewrite leaf_keys_app. apply NoDup_app.
    + now apply slot_leaves_NoDup.
    + apply IH; [|exact Hpf2]. cbn in Hnames.
      now apply andb_true_iff in Hnames as [_ Hnames].
    + intros k H1 H2.
      apply in_leaf_keys_empty in H1 as [pv1 [H1 ->]].
      apply in_leaf_keys_empty in H2 as [pv2 [H2 E]].
      apply slot_leaves_form in H1 as [r1 Hr1].
      apply slots_leaves_form in H2 as [s [r2 [Hs Hr2]]].
      rewrite Hr1, Hr2 in E.
      destruct (names_prefix_free_head slot (map fst fs) s Hnames Hs)
        as [P1 P2].
      apply append_eq_cases in E as [[r Hr]|[r Hr]].
      * assert (String.prefix slot s = true) by (apply prefix_spec; eauto).
        congruence.
      * assert (String.prefix s slot = true) by (apply prefix_spec; eauto).
        congruence.
Qed.

Lemma leaves_NoDup (msg : value) : distinct_when_prefix_free msg.
Proof.
  induction msg as [v Hv|fields IH] using value_ind_fields; intros Hpf.
  - destruct v; try discriminate; constructor.
  - rewrite leaves_Msg. rewrite prefix_free_Msg in Hpf.
    apply andb_true_iff in Hpf as [H1 H2]. now apply slots_leaves_NoDup.
Qed.

Lemma leaf_keys_NoDup (msg : value) (prefix : string) :
  prefix_free msg = true -> NoDup (leaf_keys prefix (leaves msg)).
Proof.
  intros Hpf. rewrite leaf_keys_prefix.
  apply NoDup_map_injective; [intros x y; apply append_inv_head|].
  now apply leaves_NoDup.
Qed.

(* ------------------------------------------------------------------ *)
(** ** [unpack_message]: the properties of the specification *)
(* ------------------------------------------------------------------ *)

(** C1, as stated, fails: the field [_pose] with its nested field [_x] and
    the sibling field [_pose_x] are two structural paths with the one key
    ["_pose_x"], and the Series keeps a single entry for both. *)
Lemma unpack_message_keys_collide :
  ~ keys_pairwise_distinct msg_pose_clash ""
  /\ leaves msg_pose_clash
     = [([Field "_pose"; Field "_x"], vint 1); ([Field "_pose_x"], vint 2)]
  /\ unpack_message msg_pose_clash "" = [("_pose_x", vint 2)].
Proof.
  split; [|split; reflexivity].
  intros H.
  apply (H [Field "_pose"; Field "_x"] (vint 1) [Field "_pose_x"] (vint 2)).
  - cbn. auto.
  - cbn. auto.
  - discriminate.
  - reflexivity.
Qed.

(* ------------------------------------------------------------------ *)
(** ** When the keys are pairwise different *)
(* ------------------------------------------------------------------ *)

Lemma disjoint_keys_spec (l1 l2 : list string) :
  disjoint_keys l1 l2 = true <-> (forall k, In k l1 -> ~ In k l2).
Proof.
  unfold disjoint_keys. rewrite forallb_forall. split; intros H k Hk.
  - specialize (H k Hk). apply negb_true_iff in H. intros Hin.
    apply mem_string_In in Hin. congruence.
  - apply negb_true_iff. destruct (mem_string k l2) eqn:E; [|reflexivity].
    apply mem_string_In in E. now apply H in E.
Qed.

Lemma NoDup_app_parts {A} (l1 l2 : list A) :
  NoDup (l1 ++ l2)
  <-> NoDup l1 /\ NoDup l2 /\ (forall a, In a l1 -> ~ In a l2).
Proof.
  split.
  - intros H. split; [now apply NoDup_app_remove_r in H|].
    split; [now apply NoDup_app_remove_l in H|].
    induction l1 as [|x l1 IH]; cbn in *; [tauto|].
    inversion H as [|? ? Hx H']; subst.
    intros a [<-|Ha] Hin.
    + apply Hx. apply in_or_app. now right.
    + now apply (IH H' a).
  - intros [H1 [H2 H3]]. now apply NoDup_app.
Qed.

(** A concatenation has no repetition exactly when no part has one and
    the parts are pairwise disjoint. *)
Lemma NoDup_concat (ls : list (list string)) :
  NoDup (List.concat ls)
  <-> Forall (@NoDup string) ls /\ pairwise_disjoint ls = true.
Proof.
  induction ls as [|l ls IH]; cbn [List.concat pairwise_disjoint].
  - split; [intros _; split; [constructor | reflexivity] | intros _; constructor].
  - rewrite NoDup_app_parts, IH, Forall_cons_iff, andb_true_iff.
    assert (Hd : (forall a, In a l -> ~ In a (List.concat ls))
                 <-> forallb (disjoint_keys l) ls = true).
    { rewrite forallb_forall. split.
      - intros H l' Hl'. apply disjoint_keys_spec. intros k Hk Hin.
        apply (H k Hk). apply in_concat. now exists l'.
      - intros H a Ha Hin. apply in_concat in Hin as [l' [Hl' Hin]].
        specialize (H l' Hl'). rewrite disjoint_keys_spec in H.
        now apply (H a Ha). }
    rewrite Hd. tauto.
Qed.

Lemma fields_disjoint_Msg fields :
  fields_disjoint (Msg fields)
  = pairwise_disjoint (map field_keys fields)
    && forallb (fun sv => field_disjoint (snd sv)) fields.
Proof.
  cbn [fields_disjoint]. f_equal.
  induction fields as [|[slot v] fs IH]; [reflexivity|].
  cbn [forallb snd]. rewrite <- IH. reflexivity.
Qed.

Lemma slots_leaves_keys (fs : list (string * value)) :
  leaf_keys "" (slots_leaves fs) = List.concat (map field_keys fs).
Proof.
  induction fs as [|[slot v] fs IH]; [reflexivity|].
  cbn [slots_leaves map List.concat]. now rewrite leaf_keys_app, IH.
Qed.

Lemma leaf_keys_prefix_NoDup prefix l :
  NoDup (leaf_keys prefix l) <-> NoDup (leaf_keys "" l).
Proof.
  rewrite (leaf_keys_prefix prefix). split.
  - apply NoDup_map_inv.
  - apply NoDup_map_injective. intros x y. apply append_inv_head.
Qed.

Lemma leaf_keys_under_distinct sts l :
  NoDup (leaf_keys "" (map (under sts) l)) <-> NoDup (leaf_keys "" l).
Proof. rewrite leaf_keys_under. apply leaf_keys_prefix_NoDup. Qed.

(** The keys of two items of a list differ by the index. *)
Lemma item_leaves_apart slot idx item its k :
  In k (leaf_keys "" (item_leaves slot idx item)) ->
  ~ In k (leaf_keys "" (items_leaves slot its (S idx))).
Proof.
  intros H1 H2.
  apply in_leaf_keys_empty in H1 as [pv1 [H1 ->]].
  apply in_leaf_keys_empty in H2 as [pv2 [H2 E]].
  apply item_leaves_form in H1 as [r1 Hr1].
  apply items_leaves_form in H2 as [j [r2 [Hj Hr2]]].
  rewrite Hr1, Hr2 in E.
  apply append_inv_head in E. cbn in E. injection E as E.
  apply digits_bracket_inj in E as [E _]; try apply str_of_nat_digits.
  apply str_of_nat_inj in E. lia.
Qed.

Lemma item_leaves_distinct slot idx item :
  distinct_iff_disjoint item ->
  item_disjoint item = true
  <-> NoDup (leaf_keys "" (item_leaves slot idx item)).
Proof.
  intros Hitem.
  destruct item as [s|fields|items|tag];
    try (split; intros _; [apply NoDup_singleton | reflexivity]).
  cbn [item_disjoint item_leaves]. rewrite leaf_keys_under_distinct.
  exact Hitem.
Qed.

Lemma items_leaves_distinct slot its :
  Forall distinct_iff_disjoint its ->
  forall idx,
    forallb item_disjoint its = true
    <-> NoDup (leaf_keys "" (items_leaves slot its idx)).
Proof.
  induction 1 as [|item its Hitem _ IH]; intros idx;
    cbn [forallb items_leaves].
  - split; intros _; [constructor | reflexivity].
  - rewrite leaf_keys_app, NoDup_app_parts, andb_true_iff.
    rewrite (item_leaves_distinct slot idx item Hitem), (IH (S idx)).
    split.
    + intros [H1 H2]. split; [exact H1|]. split; [exact H2|].
      intros k. apply item_leaves_apart.
    + intros [H1 [H2 _]]. now split.
Qed.

Lemma field_keys_distinct slot v :
  field_ok distinct_iff_disjoint v ->
  field_disjoint v = true <-> NoDup (field_keys (slot, v)).
Proof.
  intros Hv. unfold field_keys. cbn [fst snd].
  destruct v as [s|fields|items|tag];
    try (split; intros _; [apply NoDup_singleton | reflexivity]);
    cbn [field_disjoint slot_leaves field_ok] in *.
  - rewrite leaf_keys_under_distinct. exact Hv.
  - now apply items_leaves_distinct.
Qed.

Lemma fields_keys_distinct fs :
  Forall (fun sv => field_ok distinct_iff_disjoint (snd sv)) fs ->
  forallb (fun sv => field_disjoint (snd sv)) fs = true
  <-> Forall (@NoDup string) (map field_keys fs).
Proof.
  induction 1 as [|[slot v] fs Hv _ IH]; cbn [forallb map snd].
  - split; intros _; [constructor | reflexivity].
  - rewrite andb_true_iff, Forall_cons_iff, IH.
    now rewrite (field_keys_distinct slot v Hv).
Qed.

(** Two leaves have the same key only as leaves of two fields of one
    composite: the keys are pairwise different exactly when the fields of
    every composite contribute disjoint keys. *)
Lemma fields_disjoint_exact (msg : value) : distinct_iff_disjoint msg.
Proof.
  induction msg as [v Hv|fields IH] using value_ind_fields;
    unfold distinct_iff_disjoint.
  - destruct v; try discriminate; cbn;
      (split; intros _; [constructor | reflexivity]).
  - rewrite fields_disjoint_Msg, leaves_Msg, slots_leaves_keys, NoDup_concat.
    rewrite andb_true_iff, (fields_keys_distinct fields IH). tauto.
Qed.

(** Field names none of which is a prefix of another are a case of it. *)
Lemma prefix_free_fields_disjoint (msg : value) :
  prefix_free msg = true -> fields_disjoint msg = true.
Proof. intros H. apply fields_disjoint_exact. now apply leaves_NoDup. Qed.

(** C1, amended: two distinct structural paths of a message have the same
    column key only when they lead through two different fields of one
    composite whose names and nested keys concatenate to the same string.
    The keys of the leaves are pairwise different, under any prefix,
    exactly when at every composite the flattening enters no key
    contributed by one field is contributed by another field; then no two
    distinct structural paths have the same key, and the labels of the
    Series are the keys of the leaves, one per leaf, in the order of the
    traversal.  Field names none of which is a prefix of another field
    name of the same composite are a case of it.  (The statement is on
    the labels; the values stored under them are not part of it.) *)
Theorem unpack_message_keys_distinct (msg : value) (prefix : string) :
  (fields_disjoint msg = true <-> NoDup (leaf_keys prefix (leaves msg)))
  /\ (fields_disjoint msg = true ->
      keys_pairwise_distinct msg prefix
      /\ dict_keys (unpack_message msg prefix) = leaf_keys prefix (leaves msg)
      /\ List.length (unpack_message msg prefix) = List.length (leaves msg))
  /\ (prefix_free msg = true -> fields_disjoint msg = true).
Proof.
  assert (Hiff : fields_disjoint msg = true
                 <-> NoDup (leaf_keys prefix (leaves msg))).
  { rewrite leaf_keys_prefix_NoDup. apply fields_disjoint_exact. }
  split; [exact Hiff|]. split; [|apply prefix_free_fields_disjoint].
  intros Hd. apply Hiff in Hd as Hnd. split; [|split].
  - intros p1 v1 p2 v2 H1 H2 Hne E. apply Hne.
    change p1 with (fst (p1, v1)). change p2 with (fst (p2, v2)). f_equal.
    exact (NoDup_map_eq _ _ _ _ Hnd H1 H2 E).
  - rewrite (unpack_message_exact msg prefix Hnd). apply leaf_keys_entries.
  - rewrite (unpack_message_exact msg prefix Hnd). apply length_map.
Qed.

Lemma unpack_message_keys_distinct_witness :
  fields_disjoint msg_imu = true
  /\ prefix_free msg_imu = false
  /\ keys_pairwise_distinct msg_imu "imu"
  /\ dict_keys (unpack_message msg_imu "imu")
     = leaf_keys "imu" (leaves msg_imu)
  /\ List.length (unpack_message msg_imu "imu") = List.length (leaves msg_imu).
Proof.
  split; [reflexivity|]. split; [reflexivity|].
  apply (proj1 (proj2 (unpack_message_keys_distinct msg_imu "imu"))).
  reflexivity.
Defined.

(** C3, as stated, fails: between a composite field and the fields of its
    nested composite the code puts nothing; the key of [a.b] under the
    prefix [p] is ["pab"], and no key with a dot is produced. *)
Lemma unpack_message_no_dot :
  unpack_message (Msg [("a", Msg [("b", vint 1)])]) "p" = [("pab", vint 1)]
  /\ dotted_key "p" "a" "b" = "pa.b"
  /\ ~ In (dotted_key "p" "a" "b")
         (dict_keys (unpack_message (Msg [("a", Msg [("b", vint 1)])]) "p")).
Proof.
  split; [reflexivity|]. split; [reflexivity|].
  cbn. intros [H|[]]. discriminate.
Qed.

(** C3, amended: each column key is the prefix followed by the field
    names and the bracketed list indices of one structural path, written
    one after the other with no separator; at a composite-to-composite
    boundary the key is the prefix, the field name and the nested key,
    concatenated. *)
Theorem unpack_message_key_concat (msg : value) (prefix : string) (k : string) :
  (In k (dict_keys (unpack_message msg prefix))
   <-> exists p v, In (p, v) (leaves msg) /\ k = column_key prefix p)
  /\ (forall slot fields acc,
        In k (dict_keys (unpack_slot prefix slot (Msg fields) acc))
        <-> In k (dict_keys acc)
            \/ exists nested_key,
                 In nested_key (dict_keys (unpack_message (Msg fields) ""))
                 /\ k = (prefix ++ slot ++ nested_key)%string).
Proof.
  split.
  - rewrite (unpack_message_keys msg prefix k). unfold leaf_keys.
    rewrite in_map_iff. split.
    + intros [[p v] [E H]]. exists p, v. now split.
    + intros [p [v [H E]]]. exists (p, v). now split.
  - intros slot fields acc. cbn [unpack_slot].
    change (fold_left _ ?s ?d)
      with (set_all (fun k => prefix ++ slot ++ k)%string s d).
    rewrite set_all_keys, in_map_iff.
    split; (intros [H|[x [E H]]]; [now left|right]); exists x; now split.
Qed.

(** C5, as stated, fails for an element that is itself a list: it is
    structured, but the code does not flatten it; the list is stored whole
    under the key of its index. *)
Lemma unpack_message_nested_list_kept :
  is_structured (PyList [vint 1; vint 2]) = true
  /\ unpack_message (Msg [("m", PyList [PyList [vint 1; vint 2]])]) ""
     = [("m[0]", PyList [vint 1; vint 2])]
  /\ ~ sequence_rule "" "m" 0 (PyList [vint 1; vint 2]) [].
Proof.
  split; [reflexivity|]. split; [reflexivity|].
  intros [_ H]. specialize (H eq_refl). discriminate.
Qed.

Lemma unpack_items_enumerate prefix slot its : forall idx acc,
  unpack_items prefix slot its idx acc
  = fold_left
      (fun acc ix =>
         if hasattr_slots (snd ix)
         then dict_update acc
                (unpack_message (snd ix) (item_key prefix slot (fst ix)))
         else dict_set (item_key prefix slot (fst ix)) (snd ix) acc)
      (combine (seq idx (List.length its)) its) acc.
Proof.
  induction its as [|item its IH]; intros idx acc; [reflexivity|].
  cbn [unpack_items List.length seq combine fold_left fst snd].
  rewrite IH. f_equal. now destruct item.
Qed.

(** C5, amended: each element of a sequence field is handled under the
    key prefix + field-name + "[" + index + "]": an element with slots (a
    composite) is flattened recursively with that string as its prefix;
    any other element (a scalar, and also a nested list) is stored as one
    entry under that key.  The record of the example flattens as the
    specification says. *)
Theorem unpack_message_sequence_field (prefix slot : string) (items : list value) :
  (forall acc,
     unpack_slot prefix slot (PyList items) acc
     = fold_left
         (fun acc ix =>
            if hasattr_slots (snd ix)
            then dict_update acc
                   (unpack_message (snd ix) (item_key prefix slot (fst ix)))
            else dict_set (item_key prefix slot (fst ix)) (snd ix) acc)
         (enumerate items) acc)
  /\ unpack_message (Msg [(slot, PyList items)]) prefix
     = unpack_slot prefix slot (PyList items) []
  /\ item_key "pose" "positions" 1 = "posepositions[1]"
  /\ unpack_message
       (Msg [("positions",
              PyList [Msg [("x", vint 1); ("y", vint 2)];
                      Msg [("x", vint 3); ("y", vint 4)]])]) "pose"
     = [("posepositions[0]x", vint 1); ("posepositions[0]y", vint 2);
        ("posepositions[1]x", vint 3); ("posepositions[1]y", vint 4)].
Proof.
  split; [|split; [|split; reflexivity]].
  - intros acc. cbn [unpack_slot]. apply unpack_items_enumerate.
  - now rewrite unpack_message_Msg.
Qed.

(** C6: an input of unknown shape (an object that is neither a scalar, nor
    a message with slots, nor a list) gives the empty Series; the function
    is total, so no input makes it fail. *)
Theorem unpack_message_unknown_shape (tag : nat) (prefix : string) :
  unpack_message (Opaque tag) prefix = []
  /\ dict_keys (unpack_message (Opaque tag) prefix) = [].
Proof. split; reflexivity. Qed.

(** C10: every key of the Series returned for a prefix begins with that
    prefix. *)
Theorem unpack_message_keys_prefixed (msg : value) (prefix : string) :
  Forall (fun k => String.prefix prefix k = true)
    (dict_keys (unpack_message msg prefix)).
Proof.
  apply Forall_forall. intros k Hk.
  apply (unpack_message_keys msg prefix k) in Hk.
  unfold leaf_keys in Hk. apply in_map_iff in Hk as [pv [<- _]].
  apply prefix_append.
Qed.

(* ------------------------------------------------------------------ *)
(** ** Sorting rows by timestamp *)
(* ------------------------------------------------------------------ *)

Lemma insert_row_perm (r : row) (l : list row) :
  Permutation (r :: l) (insert_row r l).
Proof.
  induction l as [|h l IH]; cbn; [reflexivity|].
  destruct (fst r <=? fst h)%Z; [reflexivity|].
  rewrite perm_swap. now constructor.
Qed.

Lemma stable_sort_perm (l : list row) : Permutation l (stable_sort l).
Proof.
  induction l as [|r l IH]; cbn; [constructor|].
  rewrite <- insert_row_perm. now constructor.
Qed.

Lemma insert_row_hd (r x : row) (l : list row) :
  ts_le x r -> HdRel ts_le x l -> HdRel ts_le x (insert_row r l).
Proof.
  intros Hxr Hl. destruct l as [|h l]; cbn; [now constructor|].
  destruct (fst r <=? fst h)%Z; constructor; [exact Hxr|].
  now inversion Hl.
Qed.

Lemma insert_row_sorted (r : row) (l : list row) :
  Sorted ts_le l -> Sorted ts_le (insert_row r l).
Proof.
  induction 1 as [|h l Hl IH Hh]; cbn; [repeat constructor|].
  destruct (Z.leb_spec (fst r) (fst h)) as [Hle|Hgt].
  - constructor; [now constructor | now constructor].
  - constructor; [exact IH|]. apply insert_row_hd; [|exact Hh].
    unfold ts_le. lia.
Qed.

Lemma stable_sort_sorted (l : list row) : Sorted ts_le (stable_sort l).
Proof.
  induction l as [|r l IH]; cbn; [constructor | now apply insert_row_sorted].
Qed.




Lemma reversing_sort_contract : sort_contract reversing_sort.
Proof.
  constructor.
  - intros [] l; cbn; try apply stable_sort_perm;
      (rewrite <- stable_sort_perm; apply Permutation_rev).
  - intros [] l; cbn; apply stable_sort_sorted.
  - intros l; split; reflexivity.
Qed.


(* ------------------------------------------------------------------ *)
(** ** Columns of a concatenation *)
(* ------------------------------------------------------------------ *)

Lemma mem_string_app (c : string) (l1 l2 : list string) :
  mem_string c (l1 ++ l2) = mem_string c l1 || mem_string c l2.
Proof. apply existsb_app. Qed.

Lemma add_labels_mem (c : string) (new : list string) : forall acc,
  mem_string c (add_labels acc new) = mem_string c acc || mem_string c new.
Proof.
  unfold add_labels.
  induction new as [|x new IH]; intros acc; cbn [fold_left].
  - cbn. now rewrite orb_false_r.
  - rewrite IH. destruct (mem_string x acc) eqn:Hx.
    + cbn. destruct (String.eqb_spec c x) as [->|Hne]; cbn; [|reflexivity].
      rewrite Hx. reflexivity.
    + rewrite mem_string_app. cbn. rewrite orb_false_r.
      now rewrite orb_assoc.
Qed.

Lemma union_columns_mem (c : string) (dfs : list DataFrame) : forall acc,
  mem_string c (fold_left (fun acc df => add_labels acc (columns df)) dfs acc)
  = mem_string c acc || existsb (fun df => mem_string c (columns df)) dfs.
Proof.
  induction dfs as [|df dfs IH]; intros acc; cbn [fold_left existsb].
  - now rewrite orb_false_r.
  - rewrite IH, add_labels_mem. now rewrite orb_assoc.
Qed.

(** The columns of the concatenation are the union of the columns. *)
Lemma union_columns_spec (c : string) (dfs : list DataFrame) :
  In c (union_columns dfs) <-> exists df, In df dfs /\ In c (columns df).
Proof.
  rewrite <- mem_string_In. unfold union_columns.
  rewrite union_columns_mem. cbn. rewrite existsb_exists.
  split; intros [df [H1 H2]]; exists df; (split; [exact H1|]);
    now apply mem_string_In.
Qed.

Lemma cell_at_absent (cols : list string) (c : string) : forall cells,
  mem_string c cols = false -> cell_at cols cells c = None.
Proof.
  induction cols as [|col cols IH]; intros [|x cells] H; try reflexivity.
  cbn in *. rewrite String.eqb_sym in H.
  destruct (String.eqb col c); [discriminate|]. now apply IH.
Qed.

Lemma cell_at_map (f : string -> cell) (cols : list string) (c : string) :
  cell_at cols (map f cols) c = if mem_string c cols then f c else None.
Proof.
  induction cols as [|col cols IH]; [reflexivity|].
  cbn. rewrite (String.eqb_sym c col).
  destruct (String.eqb_spec col c) as [->|Hne]; [reflexivity|]. exact IH.
Qed.

(** A row of the concatenation keeps the cells of its own frame and has
    null in every other column. *)
Lemma reindex_cell (cols : list string) (df : DataFrame) (r0 : row) (c : string) :
  (forall x, In x (columns df) -> In x cols) ->
  cell_at cols (snd (reindex cols (columns df) r0)) c
  = if mem_string c (columns df) then cell_at (columns df) (snd r0) c else None.
Proof.
  intros Hsub. cbn. rewrite cell_at_map.
  destruct (mem_string c (columns df)) eqn:Hc.
  - apply mem_string_In in Hc. apply Hsub in Hc. apply mem_string_In in Hc.
    now rewrite Hc.
  - rewrite cell_at_absent by exact Hc. now destruct (mem_string c cols).
Qed.

Lemma stacked_rows_length (cols : list string) (dfs : list DataFrame) :
  List.length (stacked_rows cols dfs)
  = list_sum (map (fun df => List.length (rows df)) dfs).
Proof.
  unfold stacked_rows. induction dfs as [|df dfs IH]; [reflexivity|].
  cbn. now rewrite length_app, length_map, IH.
Qed.

Lemma join_csv_files_Ok (sort : sorter) (directory : csv_directory) :
  csv_dataframes directory <> [] ->
  join_csv_files sort directory
  = Ok {| columns := union_columns (csv_dataframes directory);
          rows := sort quicksort
                    (stacked_rows (union_columns (csv_dataframes directory))
                       (csv_dataframes directory)) |}.
Proof.
  unfold join_csv_files, pd_concat, sort_index.
  destruct (csv_dataframes directory); [congruence | reflexivity].
Qed.

(* ------------------------------------------------------------------ *)
(** ** [join_csv_files]: the properties of the specification *)
(* ------------------------------------------------------------------ *)

Lemma stable_sort_sorted_id (l : list row) :
  Sorted ts_le l -> stable_sort l = l.
Proof.
  induction 1 as [|r l Hl IH Hr]; cbn [stable_sort]; [reflexivity|].
  rewrite IH. destruct Hr as [|h l Hrh]; [reflexivity|].
  cbn [insert_row]. unfold ts_le in Hrh.
  now destruct (Z.leb_spec (fst r) (fst h)); [|lia].
Qed.

Lemma is_monotonic_increasing_spec (l : list row) :
  is_monotonic_increasing l = true <-> Sorted ts_le l.
Proof.
  induction l as [|r l IH]; cbn [is_monotonic_increasing].
  - split; [constructor | reflexivity].
  - rewrite andb_true_iff, IH. split.
    + intros [Hh Hl]. constructor; [exact Hl|].
      destruct l as [|h l]; constructor. now apply Z.leb_le.
    + intros H. inversion H as [|? ? Hl Hh]; subst. split; [|exact Hl].
      destruct Hh as [|h l Hrh]; [reflexivity | now apply Z.leb_le].
Qed.

Lemma shortcut_sort_contract : sort_contract shortcut_sort.
Proof.
  constructor.
  - intros kind l. unfold shortcut_sort.
    destruct (is_monotonic_increasing l); [reflexivity|].
    apply (sort_perm _ reversing_sort_contract).
  - intros kind l. unfold shortcut_sort.
    destruct (is_monotonic_increasing l) eqn:E.
    + now apply is_monotonic_increasing_spec.
    + apply (sort_sorted _ reversing_sort_contract).
  - intros l. unfold shortcut_sort.
    destruct (is_monotonic_increasing l) eqn:E; [|split; reflexivity].
    apply is_monotonic_increasing_spec in E.
    now rewrite stable_sort_sorted_id.
Qed.

Lemma shortcut_sort_keeps_sorted : sort_keeps_sorted shortcut_sort.
Proof.
  intros kind l H. unfold shortcut_sort.
  apply is_monotonic_increasing_spec in H. now rewrite H.
Qed.

(** What is known of [sort_index] leaves the order of equal timestamps
    open when the index is not ascending and the kind is [quicksort]: a
    routine that is a sorted permutation for every kind, stable for the
    kinds [mergesort] and [stable], and the identity on an ascending
    index, may return them in the other order. *)
Remark sort_contract_leaves_ties_open :
  sort_contract shortcut_sort
  /\ sort_keeps_sorted shortcut_sort
  /\ map row_shape (shortcut_sort quicksort tie_rows)
     = [(1%Z, [true; true]); (2%Z, [true; false]); (2%Z, [false; true])]
  /\ map row_shape (shortcut_sort stable tie_rows)
     = [(1%Z, [true; true]); (2%Z, [false; true]); (2%Z, [true; false])].
Proof.
  split; [apply shortcut_sort_contract|].
  split; [apply shortcut_sort_keeps_sorted|]. split; reflexivity.
Qed.


Section MergeTables.
Variable sort : sorter.
Hypothesis sort_ok : sort_contract sort.
Hypothesis sort_shortcut : sort_keeps_sorted sort.
Variable directory : csv_directory.
Hypothesis some_table : csv_dataframes directory <> [].


(** C4: merging is an append and a sort, not a join.  The output has one
    row per input row; every output row comes from one row of one source
    table, has the timestamp of that row, has a value exactly where that
    row has one in the columns of its own table, and is null in every
    column that only other tables have, whatever rows of other tables
    share its timestamp; and every input row has such an output row. *)
Theorem join_csv_files_no_join :
  exists out,
    join_csv_files sort directory = Ok out
    /\ List.length (rows out)
       = list_sum (map (fun df => List.length (rows df))
                    (csv_dataframes directory))
    /\ (forall r, In r (rows out) ->
          exists df r0,
            In df (csv_dataframes directory) /\ In r0 (rows df) /\ fst r = fst r0
            /\ forall c,
                 is_null (cell_at (columns out) (snd r) c)
                 = if mem_string c (columns df)
                   then is_null (cell_at (columns df) (snd r0) c)
                   else true)
    /\ (forall df r0, In df (csv_dataframes directory) -> In r0 (rows df) ->
          exists r,
            In r (rows out) /\ fst r = fst r0
            /\ forall c,
                 is_null (cell_at (columns out) (snd r) c)
                 = if mem_string c (columns df)
                   then is_null (cell_at (columns df) (snd r0) c)
                   else true).
Proof.
  eexists. split; [now apply join_csv_files_Ok|]. cbn [columns rows].
  pose proof (sort_perm sort sort_ok quicksort
                (stacked_rows (union_columns (csv_dataframes directory))
                   (csv_dataframes directory))) as Hp.
  assert (Hcell : forall df r0 c,
             In df (csv_dataframes directory) ->
             is_null (cell_at (union_columns (csv_dataframes directory))
                        (snd (reindex (union_columns (csv_dataframes directory))
                                (columns df) r0)) c)
             = if mem_string c (columns df)
               then is_null (cell_at (columns df) (snd r0) c)
               else true).
  { intros df r0 c Hdf. rewrite reindex_cell.
    - now destruct (mem_string c (columns df)).
    - intros x Hx. apply union_columns_spec. now exists df. }
  split; [|split].
  - rewrite <- (Permutation_length Hp). apply stacked_rows_length.
  - intros r Hr. apply (Permutation_in _ (Permutation_sym Hp)) in Hr.
    unfold stacked_rows in Hr. apply in_flat_map in Hr as [df [Hdf Hr]].
    apply in_map_iff in Hr as [r0 [<- Hr0]].
    exists df, r0. repeat split; try assumption.
    intros c. now apply Hcell.
  - intros df r0 Hdf Hr0.
    exists (reindex (union_columns (csv_dataframes directory)) (columns df) r0).
    split; [|split; [reflexivity | intros c; now apply Hcell]].
    apply (Permutation_in _ Hp).
    unfold stacked_rows. apply in_flat_map. exists df. split; [exact Hdf|].
    now apply in_map.
Qed.
End MergeTables.


Lemma join_csv_files_no_join_witness :
  sort_contract shortcut_sort
  /\ csv_dataframes tie_directory <> []
  /\ exists out,
       join_csv_files shortcut_sort tie_directory = Ok out
       /\ List.length (rows out)
          = list_sum (map (fun df => List.length (rows df))
                        (csv_dataframes tie_directory))
       /\ (forall r, In r (rows out) ->
             exists df r0,
               In df (csv_dataframes tie_directory) /\ In r0 (rows df)
               /\ fst r = fst r0
               /\ forall c,
                    is_null (cell_at (columns out) (snd r) c)
                    = if mem_string c (columns df)
                      then is_null (cell_at (columns df) (snd r0) c)
                      else true)
       /\ (forall df r0, In df (csv_dataframes tie_directory) ->
             In r0 (rows df) ->
             exists r,
               In r (rows out) /\ fst r = fst r0
               /\ forall c,
                    is_null (cell_at (columns out) (snd r) c)
                    = if mem_string c (columns df)
                      then is_null (cell_at (columns df) (snd r0) c)
                      else true).
Proof.
  split; [apply shortcut_sort_contract|]. split; [discriminate|].
  apply (join_csv_files_no_join shortcut_sort shortcut_sort_contract
           tie_directory).
  discriminate.
Defined.

(** The merge of the specification's example: tables [A = [5; 1]] and
    [B = [3]] come out in the order 1, 3, 5, each row with values in
    columns of its own table only. *)
Example join_csv_files_merge_order :
  exists out,
    join_csv_files shortcut_sort merge_directory = Ok out
    /\ columns out = ["a_x"; "a_y"; "b_x"]%string
    /\ map row_shape (rows out)
       = [(1%Z, [false; true; true]);
          (3%Z, [true; true; false]);
          (5%Z, [false; false; true])].
Proof. eexists. split; [reflexivity|]. split; reflexivity. Qed.

(** The two rows of timestamp 2 of the specification's example, one from
    each table: the concatenated index is ascending, the rows stay in
    table order, each with its own column only. *)
Example join_csv_files_tie_kept :
  exists out,
    join_csv_files shortcut_sort tie_directory = Ok out
    /\ columns out = ["imu_x"; "gps_x"]%string
    /\ map row_shape (rows out)
       = [(2%Z, [false; true]); (2%Z, [true; false])]
    /\ join_is_stable_sort shortcut_sort tie_directory.
Proof.
  eexists. split; [reflexivity|]. split; [reflexivity|].
  split; [reflexivity|].
  eexists. split; [reflexivity|]. split; [reflexivity|].
  split; [|reflexivity].
  repeat constructor; unfold ts_le; cbn; lia.
Qed.

(* ------------------------------------------------------------------ *)
(** ** The table of the unpacked messages *)
(* ------------------------------------------------------------------ *)





Lemma rows_at_absent (t : Z) (l : list row) :
  ~ In t (map fst l) -> rows_at t l = [].
Proof.
  unfold rows_at. induction l as [|r l IH]; cbn; [reflexivity|].
  intros H. destruct (Z.eqb_spec (fst r) t) as [E|E]; [tauto|].
  apply IH. tauto.
Qed.



Lemma flat_map_agree {A B} (f g : A -> list B) (l : list A) :
  (forall x, In x l -> f x = g x) -> flat_map f l = flat_map g l.
Proof.
  induction l as [|x l IH]; cbn; intros H; [reflexivity|].
  rewrite H by now left. f_equal. apply IH. intros y Hy. apply H. now right.
Qed.

(** With pairwise different labels the join pairs each row with itself. *)
Lemma joined_rows_unique (l : list row) :
  NoDup (map fst l) -> flat_map (fun t => rows_at t l) (map fst l) = l.
Proof.
  induction l as [|r l IH]; cbn [map flat_map]; [reflexivity|].
  intros Hnd. inversion Hnd as [|? ? Hr Hnd']; subst.
  unfold rows_at at 1. cbn [filter]. rewrite Z.eqb_refl.
  fold (rows_at (fst r) l). rewrite rows_at_absent by exact Hr. cbn [app].
  f_equal. rewrite <- (IH Hnd') at 2.
  apply flat_map_agree. intros t Ht. unfold rows_at. cbn [filter].
  destruct (Z.eqb_spec (fst r) t) as [E|E]; [|reflexivity].
  subst. contradiction.
Qed.

Lemma apply_unpack_Expanded (prefix : string) (msgs : list (Z * value)) :
  msgs <> [] ->
  apply_unpack prefix msgs
  = Expanded
      {| columns := unpacked_columns prefix msgs;
         rows := map (fun tm => series_row (unpacked_columns prefix msgs)
                                  (fst tm) (unpack_message (snd tm) prefix))
                   msgs |}.
Proof.
  destruct msgs as [|tm msgs]; [congruence|]. intros _.
  unfold apply_unpack, unpacked_rows. now rewrite map_map.
Qed.



(* ------------------------------------------------------------------ *)
(** ** The table builder: the property of the specification *)
(* ------------------------------------------------------------------ *)




(* ------------------------------------------------------------------ *)
(** ** The batch over the bags *)
(* ------------------------------------------------------------------ *)

Lemma main_step_written (st : storage) (conv : conversion) (w : world)
    (bag_path : string) :
  written (main_step st conv w bag_path)
  = written w ++ outputs_of st conv bag_path.
Proof.
  unfold main_step, outputs_of.
  destruct (process_bag st conv bag_path) as [printed [file|e]]; cbn.
  - reflexivity.
  - now rewrite app_nil_r.
Qed.

Lemma bag_loop_written (st : storage) (conv : conversion)
    (bag_files : list string) : forall w,
  written (fold_left (main_step st conv) bag_files w)
  = written w ++ flat_map (outputs_of st conv) bag_files.
Proof.
  induction bag_files as [|b bs IH]; intros w; cbn [fold_left flat_map].
  - now rewrite app_nil_r.
  - now rewrite IH, main_step_written, app_assoc.
Qed.

(** The tables written by the batch: for each conversion, for each bag,
    what that bag contributes. *)
Lemma main_loop_written (st : storage) (conversion_keywords : list conversion)
    (bag_files : list string) : forall w,
  written (main_loop st conversion_keywords bag_files w)
  = written w
    ++ flat_map (fun conv => flat_map (outputs_of st conv) bag_files)
         conversion_keywords.
Proof.
  unfold main_loop.
  induction conversion_keywords as [|conv convs IH]; intros w;
    cbn [fold_left flat_map].
  - now rewrite app_nil_r.
  - now rewrite IH, bag_loop_written, app_assoc.
Qed.





(* ------------------------------------------------------------------ *)
(** ** A source that cannot be opened: the property of the specification *)
(* ------------------------------------------------------------------ *)




(** The batch over a bag that does not open, a bag that opens, and the
    conversion of a topic the second bag has no record of: one table is
    written for each conversion, next to the directory of the bag that
    opens; for the unavailable bag there is none. *)
Example main_loop_run :
  exists w,
    main_loop key_sets_storage
      [plain_conversion; idle_conversion]
      ["run/missing.db3"; "run/rosbag2_0.db3"]
      {| stdout := []; written := [] |} = w
    /\ stdout w
       = ["Processing run/missing.db3";
          "Failed to open bag file: No storage could be initialized";
          "Failed to process run/missing.db3: list indices must be integers or slices, not str";
          "Processing run/rosbag2_0.db3";
          "Plot saved as run/../rosbag2_0t.csv";
          "Processing run/missing.db3";
          "Failed to open bag file: No storage could be initialized";
          "Failed to process run/missing.db3: list indices must be integers or slices, not str";
          "Processing run/rosbag2_0.db3";
          "Plot saved as run/../rosbag2_0n.csv"]%string
    /\ map fst (written w)
       = ["run/../rosbag2_0t.csv"; "run/../rosbag2_0n.csv"]%string
    /\ map (fun f => map row_shape (rows (snd f))) (written w)
       = [[(1%Z, [false; true]); (2%Z, [true; false])]; []].
Proof. eexists. split; [reflexivity|]. repeat split. Qed.

(** The table builder called on a bag that cannot be opened: indexing the
    returned list raises. *)
Example read_unpackaged_unavailable :
  read_unpackaged_message_from_bag_as_dataframe key_sets_storage
    "run/missing.db3" "/t" plain_conversion
  = (["Failed to open bag file: No storage could be initialized"],
     Raise (TypeError "list indices must be integers or slices, not str")).
Proof. reflexivity. Qed.

(* ------------------------------------------------------------------ *)
(** ** Discovery of the bags *)
(* ------------------------------------------------------------------ *)

Lemma resolve_app (p q : fs_path) : forall pos,
  resolve pos (p ++ q)
  = match resolve pos p with
    | Some pos' => resolve pos' q
    | None => None
    end.
Proof.
  induction p as [|c p IH]; intros pos; cbn [app resolve]; [reflexivity|].
  destruct (step_into pos c); [apply IH | reflexivity].
Qed.

(** Going into a subdirectory and back leads to where one was. *)
Lemma step_into_back (pos pos' : position) (name : string) :
  name <> "." -> name <> ".." ->
  step_into pos name = Some pos' -> is_dir (here pos') = true ->
  step_into pos' ".." = Some pos.
Proof.
  intros Hdot Hup Hstep Hdir. unfold step_into in Hstep.
  destruct pos as [above n]. cbn [here ancestors] in Hstep.
  destruct n as [|entries]; [discriminate|].
  apply String.eqb_neq in Hdot, Hup. rewrite Hdot, Hup in Hstep.
  destruct (find_entry name entries) as [child|]; [|discriminate].
  injection Hstep as <-. cbn [here] in Hdir.
  unfold step_into. cbn [here ancestors].
  destruct child; [discriminate | reflexivity].
Qed.

(** For a subdirectory [d/name], the path [d/name/../DATAIGNORE] is the
    marker of the parent [d]. *)
Lemma data_ignore_file_parent (cwd pos : position) (d : fs_path) (name : string) :
  name <> "." -> name <> ".." ->
  resolve cwd (d ++ [name]) = Some pos -> is_dir (here pos) = true ->
  path_exists cwd (data_ignore_file (d ++ [name])) = carries_marker cwd d.
Proof.
  intros Hdot Hup Hres Hdir. unfold data_ignore_file, carries_marker, path_exists.
  rewrite (resolve_app (d ++ [name])), Hres.
  rewrite resolve_app in Hres. rewrite (resolve_app d).
  destruct (resolve cwd d) as [posd|]; [|discriminate].
  cbn [resolve] in Hres.
  destruct (step_into posd name) as [pos1|] eqn:Hstep; [|discriminate].
  injection Hres as ->.
  cbn [resolve]. now rewrite (step_into_back posd pos name Hdot Hup Hstep Hdir).
Qed.

Lemma in_bag_files_in (cwd : position) (root : fs_path) (files : list string)
    (p : fs_path) :
  In p (bag_files_in cwd root files)
  <-> exists file,
        In file files /\ endswith file ".db3" = true
        /\ path_exists cwd (data_ignore_file root) = false
        /\ p = root ++ [file].
Proof.
  unfold bag_files_in. rewrite in_flat_map. split.
  - intros [file [Hfile Hp]]. exists file.
    destruct (endswith file ".db3"); cbn in Hp; [|contradiction].
    destruct (path_exists cwd (data_ignore_file root)); cbn in Hp;
      [contradiction|].
    destruct Hp as [<-|[]]. auto.
  - intros [file [Hfile [Hext [Hmark ->]]]]. exists file.
    rewrite Hext, Hmark. cbn. auto.
Qed.

(* ------------------------------------------------------------------ *)
(** ** Discovery: the property of the specification *)
(* ------------------------------------------------------------------ *)

(** C9, as stated, fails: the marker [data/DATAIGNORE] does not suppress
    the bag in [data/exp/rosbag2_run], two levels below it; the returned
    path lies below a directory that carries the marker. *)
Lemma find_rosbag_files_below_marker :
  find_rosbag_files (at_root marked_tree) ["data"]
  = [["data"; "exp"; "rosbag2_run"; "rosbag2_run_0.db3"]]
  /\ carries_marker (at_root marked_tree) ["data"] = true
  /\ ~ no_bag_below_marker (at_root marked_tree) ["data"].
Proof.
  split; [reflexivity|]. split; [reflexivity|].
  intros H.
  specialize (H ["data"; "exp"; "rosbag2_run"; "rosbag2_run_0.db3"] ["data"]).
  assert (E : carries_marker (at_root marked_tree) ["data"] = false).
  { apply H.
    - cbn. auto.
    - exists ["exp"; "rosbag2_run"; "rosbag2_run_0.db3"]. split;
        [discriminate | reflexivity]. }
  discriminate.
Qed.

(** C9, amended: [find_rosbag_files] returns the [.db3] files of the
    directories of the walk for which the path [root/../DATAIGNORE] does
    not exist.  So a log file is excluded whenever the marker is present
    in the parent of the directory that holds the file; a marker further
    up the tree does not suppress it. *)
Theorem find_rosbag_files_marker (cwd : position) (from_dir : fs_path) :
  (forall p,
     In p (find_rosbag_files cwd from_dir)
     <-> exists top root dirs files file,
           resolve cwd from_dir = Some top
           /\ In (root, dirs, files) (os_walk from_dir (here top))
           /\ In file files /\ endswith file ".db3" = true
           /\ path_exists cwd (data_ignore_file root) = false
           /\ p = root ++ [file])
  /\ (forall root file,
        path_exists cwd (data_ignore_file root) = true ->
        ~ In (root ++ [file]) (find_rosbag_files cwd from_dir))
  /\ (forall d name pos file,
        name <> "." -> name <> ".." ->
        resolve cwd (d ++ [name]) = Some pos -> is_dir (here pos) = true ->
        carries_marker cwd d = true ->
        ~ In ((d ++ [name]) ++ [file]) (find_rosbag_files cwd from_dir))
  /\ find_rosbag_files (at_root sorted_tree) ["data"]
     = [["data"; "kept"; "rosbag2_run"; "rosbag2_run_0.db3"]].
Proof.
  assert (Hiff : forall p,
     In p (find_rosbag_files cwd from_dir)
     <-> exists top root dirs files file,
           resolve cwd from_dir = Some top
           /\ In (root, dirs, files) (os_walk from_dir (here top))
           /\ In file files /\ endswith file ".db3" = true
           /\ path_exists cwd (data_ignore_file root) = false
           /\ p = root ++ [file]).
  { intros p. unfold find_rosbag_files.
    destruct (resolve cwd from_dir) as [top|].
    - rewrite in_flat_map. split.
      + intros [[[root dirs] files] [Hv Hp]]. cbn [fst snd] in Hp.
        apply in_bag_files_in in Hp as [file Hfile].
        exists top, root, dirs, files, file. tauto.
      + intros [top' [root [dirs [files [file [E [Hv Hrest]]]]]]].
        injection E as <-. exists (root, dirs, files). split; [exact Hv|].
        cbn [fst snd]. apply in_bag_files_in. now exists file.
    - split; [intros [] |].
      intros [top [root [dirs [files [file [E _]]]]]]. discriminate. }
  assert (Hex : forall root file,
        path_exists cwd (data_ignore_file root) = true ->
        ~ In (root ++ [file]) (find_rosbag_files cwd from_dir)).
  { intros root file Hmark Hin.
    apply Hiff in Hin as [top [root' [dirs [files [file' [_ [_ [_ [_ [Hno E]]]]]]]]]].
    apply app_inj_tail in E as [-> _]. congruence. }
  split; [exact Hiff|]. split; [exact Hex|]. split; [|reflexivity].
  intros d name pos file Hdot Hup Hres Hdir Hmark.
  apply Hex. now rewrite (data_ignore_file_parent cwd pos d name).
Qed.

(* ================================================================== *)
(** * Further properties of [unpack_message] *)
(* ================================================================== *)

(* ------------------------------------------------------------------ *)
(** ** The labels of the Series *)
(* ------------------------------------------------------------------ *)

Lemma unpack_items_NoDup prefix slot its : forall idx acc,
  NoDup (dict_keys acc) ->
  NoDup (dict_keys (unpack_items prefix slot its idx acc)).
Proof.
  induction its as [|item its IH]; intros idx acc Hacc; cbn [unpack_items];
    [exact Hacc|].
  apply IH. destruct item; cbn [unpack_item];
    try (now apply dict_set_NoDup).
  rewrite dict_update_set_all. now apply set_all_NoDup.
Qed.

Lemma unpack_slots_NoDup prefix fs : forall acc,
  NoDup (dict_keys acc) -> NoDup (dict_keys (unpack_slots prefix fs acc)).
Proof.
  induction fs as [|[slot v] fs IH]; intros acc Hacc; cbn [unpack_slots];
    [exact Hacc|].
  apply IH. destruct v; cbn [unpack_slot]; try (now apply dict_set_NoDup).
  - change (fold_left _ ?s ?d)
      with (set_all (fun k => prefix ++ slot ++ k)%string s d).
    now apply set_all_NoDup.
  - now apply unpack_items_NoDup.
Qed.

(** X1: the Series never has a label twice, whatever the message. *)
Theorem unpack_message_labels_unique (msg : value) (prefix : string) :
  NoDup (dict_keys (unpack_message msg prefix)).
Proof.
  destruct msg; try constructor.
  rewrite unpack_message_Msg. apply unpack_slots_NoDup. constructor.
Qed.

(** X4: the Series has at most one entry per leaf of the message; it has
    one entry per leaf exactly when the keys of the leaves are pairwise
    different, and it is empty exactly when the message has no leaf. *)
Theorem unpack_message_entry_count (msg : value) (prefix : string) :
  List.length (unpack_message msg prefix) <= List.length (leaves msg)
  /\ (List.length (unpack_message msg prefix) = List.length (leaves msg)
      <-> NoDup (leaf_keys prefix (leaves msg)))
  /\ (unpack_message msg prefix = [] <-> leaves msg = []).
Proof.
  pose proof (unpack_message_labels_unique msg prefix) as Hnd.
  assert (Hincl : incl (dict_keys (unpack_message msg prefix))
                       (leaf_keys prefix (leaves msg)))
    by (intros k Hk; now apply unpack_message_keys).
  assert (Hlen1 : List.length (dict_keys (unpack_message msg prefix))
                  = List.length (unpack_message msg prefix))
    by apply length_map.
  assert (Hlen2 : List.length (leaf_keys prefix (leaves msg))
                  = List.length (leaves msg))
    by apply length_map.
  split; [|split].
  - rewrite <- Hlen1, <- Hlen2. now apply NoDup_incl_length.
  - split.
    + intros E. apply (NoDup_incl_NoDup Hnd); [lia | exact Hincl].
    + intros H. rewrite (unpack_message_exact msg prefix H).
      apply length_map.
  - split.
    + intros E. destruct (leaves msg) as [|[p v] l] eqn:El; [reflexivity|].
      exfalso.
      assert (Hk : In (column_key prefix p)
                      (dict_keys (unpack_message msg prefix))).
      { apply unpack_message_keys. rewrite El. now left. }
      rewrite E in Hk. exact Hk.
    + intros E. rewrite (unpack_message_exact msg prefix).
      * now rewrite E.
      * rewrite E. constructor.
Qed.

(* ------------------------------------------------------------------ *)
(** ** The order of the labels *)
(* ------------------------------------------------------------------ *)

Lemma add_labels_app (acc l1 l2 : list string) :
  add_labels acc (l1 ++ l2) = add_labels (add_labels acc l1) l2.
Proof. apply fold_left_app. Qed.

(** An assignment adds a label at the end, or leaves the labels as they
    are. *)
Lemma dict_keys_dict_set {A} (k : string) (v : A) (d : dict A) :
  dict_keys (dict_set k v d) = add_labels (dict_keys d) [k].
Proof.
  unfold add_labels; cbn [fold_left].
  induction d as [|[k0 v0] d IH]; cbn; [reflexivity|].
  rewrite (String.eqb_sym k k0).
  destruct (String.eqb_spec k0 k) as [->|Hne]; cbn; [reflexivity|].
  unfold dict_keys in IH. rewrite IH. unfold mem_string.
  now destruct (existsb (String.eqb k) (map fst d)).
Qed.

Lemma dict_keys_set_all {A} (f : string -> string) (s : dict A) : forall d,
  dict_keys (set_all f s d) = add_labels (dict_keys d) (map f (dict_keys s)).
Proof.
  unfold set_all.
  induction s as [|[k v] s IH]; intros d; cbn [fold_left]; [reflexivity|].
  rewrite IH, dict_keys_dict_set. reflexivity.
Qed.

Lemma add_labels_known (x : string) (acc : list string) :
  mem_string x acc = true -> add_labels acc [x] = acc.
Proof. intros H. unfold add_labels; cbn [fold_left]. now rewrite H. Qed.

(** Labels added twice are added once. *)
Lemma add_labels_absorb (l : list string) : forall b acc,
  add_labels acc (add_labels b l) = add_labels (add_labels acc b) l.
Proof.
  induction l as [|x l IH]; intros b acc; [reflexivity|].
  change (add_labels b (x :: l)) with (add_labels (add_labels b [x]) l).
  change (add_labels (add_labels acc b) (x :: l))
    with (add_labels (add_labels (add_labels acc b) [x]) l).
  rewrite IH. f_equal.
  destruct (mem_string x b) eqn:E.
  - rewrite (add_labels_known x b E). symmetry. apply add_labels_known.
    now rewrite add_labels_mem, E, orb_true_r.
  - replace (add_labels b [x]) with (b ++ [x])
      by (unfold add_labels; cbn [fold_left]; now rewrite E).
    apply add_labels_app.
Qed.

Lemma add_labels_first (acc l : list string) :
  add_labels acc (add_labels [] l) = add_labels acc l.
Proof. now rewrite add_labels_absorb. Qed.

Section Rekey.
Context {A : Type}.
Variable f : string -> string.
Hypothesis f_inj : forall x y, f x = f y -> x = y.

Lemma eqb_rekey (x y : string) : String.eqb (f x) (f y) = String.eqb x y.
Proof.
  destruct (String.eqb_spec x y) as [->|Hne].
  - apply String.eqb_refl.
  - apply String.eqb_neq. intros E. apply Hne. now apply f_inj.
Qed.

Lemma mem_string_rekey (x : string) (l : list string) :
  mem_string (f x) (map f l) = mem_string x l.
Proof.
  unfold mem_string. induction l as [|y l IH]; cbn; [reflexivity|].
  now rewrite eqb_rekey, IH.
Qed.

Lemma add_labels_rekey (l : list string) : forall acc,
  map f (add_labels acc l) = add_labels (map f acc) (map f l).
Proof.
  unfold add_labels.
  induction l as [|x l IH]; intros acc; cbn [fold_left map]; [reflexivity|].
  rewrite IH, mem_string_rekey. f_equal.
  destruct (mem_string x acc); [reflexivity|]. now rewrite map_app.
Qed.

Lemma dict_set_rekey (k : string) (v : A) (d : dict A) :
  dict_set (f k) v (map (rekey f) d) = map (rekey f) (dict_set k v d).
Proof.
  induction d as [|[k0 v0] d IH]; cbn; [reflexivity|].
  rewrite eqb_rekey. destruct (String.eqb k0 k); cbn; [reflexivity|].
  now rewrite IH.
Qed.

Lemma set_all_rekey (g : string -> string) (s : dict A) : forall d,
  set_all (fun k => f (g k)) s (map (rekey f) d)
  = map (rekey f) (set_all g s d).
Proof.
  unfold set_all.
  induction s as [|[k0 v0] s IH]; intros d; cbn [fold_left]; [reflexivity|].
  cbn [fst snd]. rewrite dict_set_rekey. apply IH.
Qed.
End Rekey.

Lemma set_all_map_rekey {A} (f g : string -> string) (s : dict A) : forall d,
  set_all f (map (rekey g) s) d = set_all (fun k => f (g k)) s d.
Proof.
  unfold set_all.
  induction s as [|[k0 v0] s IH]; intros d; cbn [fold_left map]; [reflexivity|].
  apply IH.
Qed.

Lemma map_rekey_id {A} (d : dict A) : map (rekey (fun k => k)) d = d.
Proof.
  induction d as [|[k v] d IH]; cbn; [reflexivity|]. now rewrite IH.
Qed.

Lemma append_injective (p : string) :
  forall x y, String.append p x = String.append p y -> x = y.
Proof. intros x y. apply append_inv_head. Qed.

Lemma unpack_item_order prefix slot idx item acc :
  label_order item ->
  dict_keys (unpack_item prefix slot idx item acc)
  = add_labels (dict_keys acc) (leaf_keys prefix (item_leaves slot idx item)).
Proof.
  intros Hitem.
  assert (Hother :
    dict_keys (dict_set (item_key prefix slot idx) item acc)
    = add_labels (dict_keys acc)
        (leaf_keys prefix [([Field slot; Index idx], item)])).
  { now rewrite dict_keys_dict_set, item_key_spec. }
  destruct item as [s|fields|items|tag]; try exact Hother.
  cbn [unpack_item item_leaves].
  rewrite dict_update_set_all, dict_keys_set_all, map_id, Hitem.
  now rewrite add_labels_first, leaf_keys_under, item_key_spec.
Qed.

Lemma unpack_items_order prefix slot its :
  Forall label_order its ->
  forall idx acc,
    dict_keys (unpack_items prefix slot its idx acc)
    = add_labels (dict_keys acc) (leaf_keys prefix (items_leaves slot its idx)).
Proof.
  induction 1 as [|item its Hitem _ IH]; intros idx acc;
    cbn [unpack_items items_leaves]; [reflexivity|].
  rewrite IH, unpack_item_order by exact Hitem.
  now rewrite leaf_keys_app, add_labels_app.
Qed.

Lemma unpack_slot_order prefix slot v acc :
  field_ok label_order v ->
  dict_keys (unpack_slot prefix slot v acc)
  = add_labels (dict_keys acc) (leaf_keys prefix (slot_leaves slot v)).
Proof.
  intros Hv.
  assert (Hother :
    dict_keys (dict_set (prefix ++ slot) v acc)
    = add_labels (dict_keys acc) (leaf_keys prefix [([Field slot], v)])).
  { rewrite dict_keys_dict_set. cbn [leaf_keys map fst].
    now rewrite column_key_field. }
  destruct v as [s|fields|items|tag]; try exact Hother.
  - cbn [unpack_slot slot_leaves field_ok] in *.
    change (fold_left _ ?s ?d)
      with (set_all (fun k => prefix ++ slot ++ k)%string s d).
    rewrite dict_keys_set_all, (Hv ""%string).
    rewrite add_labels_rekey
      by (intros x y E; now apply append_inv_head, append_inv_head in E).
    cbn [map]. rewrite add_labels_first. f_equal.
    rewrite leaf_keys_under, column_key_field.
    rewrite (leaf_keys_prefix (prefix ++ slot)).
    apply map_ext. intros k. symmetry. apply append_assoc.
  - cbn [unpack_slot slot_leaves]. now apply unpack_items_order.
Qed.

Lemma unpack_slots_order prefix fs :
  Forall (fun sv => field_ok label_order (snd sv)) fs ->
  forall acc,
    dict_keys (unpack_slots prefix fs acc)
    = add_labels (dict_keys acc) (leaf_keys prefix (slots_leaves fs)).
Proof.
  induction 1 as [|[slot v] fs Hv _ IH]; intros acc;
    cbn [unpack_slots slots_leaves]; [reflexivity|].
  rewrite IH, unpack_slot_order by exact Hv.
  now rewrite leaf_keys_app, add_labels_app.
Qed.

(** X2: the labels of the Series are the column keys of the leaves in the
    order of the traversal (slots in the order of [__slots__], list items
    by index), each key once, at the place of its first occurrence: a key
    that comes again is assigned in place, it neither adds a label nor
    moves one.  (On the labels only; the values are not part of the
    statement.) *)
Theorem unpack_message_label_order (msg : value) (prefix : string) :
  dict_keys (unpack_message msg prefix)
  = add_labels [] (leaf_keys prefix (leaves msg)).
Proof.
  revert prefix. change (label_order msg).
  induction msg as [v Hv|fields IH] using value_ind_fields; intros prefix.
  - destruct v; try discriminate; reflexivity.
  - now rewrite unpack_message_Msg, leaves_Msg, unpack_slots_order.
Qed.

(** The key [ab] comes twice, from [a.b] and from the field [ab]: one
    label, before [c]. *)
Example label_order_of_a_clash :
  leaf_keys "" (leaves (Msg [("a", Msg [("b", vint 1)]); ("c", vint 2);
                             ("ab", vint 3)]))
  = ["ab"; "c"; "ab"]%string
  /\ dict_keys (unpack_message (Msg [("a", Msg [("b", vint 1)]); ("c", vint 2);
                                     ("ab", vint 3)]) "")
     = ["ab"; "c"]%string.
Proof. split; reflexivity. Qed.

(* ------------------------------------------------------------------ *)
(** ** The prefix *)
(* ------------------------------------------------------------------ *)

Lemma map_rekey_append {A} (p q : string) (d : dict A) :
  map (rekey (String.append (p ++ q))) d
  = map (rekey (String.append p)) (map (rekey (String.append q)) d).
Proof.
  rewrite map_map. apply map_ext. intros [k v]. unfold rekey; cbn.
  now rewrite append_assoc.
Qed.

Lemma unpack_item_prefix prefix slot idx item acc :
  prefix_commutes item ->
  unpack_item prefix slot idx item (map (rekey (String.append prefix)) acc)
  = map (rekey (String.append prefix)) (unpack_item "" slot idx item acc).
Proof.
  intros Hitem.
  assert (Hother :
    dict_set (item_key prefix slot idx) item
      (map (rekey (String.append prefix)) acc)
    = map (rekey (String.append prefix))
        (dict_set (item_key "" slot idx) item acc)).
  { apply (dict_set_rekey _ (append_injective prefix)). }
  destruct item as [s|fields|items|tag]; try exact Hother.
  cbn [unpack_item]. rewrite !dict_update_set_all.
  change (item_key prefix slot idx)
    with (prefix ++ item_key "" slot idx)%string.
  rewrite (Hitem (prefix ++ item_key "" slot idx)%string), map_rekey_append.
  rewrite <- (Hitem (item_key "" slot idx)).
  rewrite set_all_map_rekey.
  apply (set_all_rekey _ (append_injective prefix) (fun k => k)).
Qed.

Lemma unpack_items_prefix prefix slot its :
  Forall prefix_commutes its ->
  forall idx acc,
    unpack_items prefix slot its idx (map (rekey (String.append prefix)) acc)
    = map (rekey (String.append prefix)) (unpack_items "" slot its idx acc).
Proof.
  induction 1 as [|item its Hitem _ IH]; intros idx acc; cbn [unpack_items];
    [reflexivity|].
  now rewrite unpack_item_prefix, IH.
Qed.

Lemma unpack_slot_prefix prefix slot v acc :
  field_ok prefix_commutes v ->
  unpack_slot prefix slot v (map (rekey (String.append prefix)) acc)
  = map (rekey (String.append prefix)) (unpack_slot "" slot v acc).
Proof.
  intros Hv.
  assert (Hother :
    dict_set (prefix ++ slot) v (map (rekey (String.append prefix)) acc)
    = map (rekey (String.append prefix)) (dict_set ("" ++ slot) v acc)).
  { apply (dict_set_rekey _ (append_injective prefix)). }
  destruct v as [s|fields|items|tag]; try exact Hother.
  - cbn [unpack_slot].
    change (fold_left _ ?s ?d)
      with (set_all (fun k => "" ++ slot ++ k)%string s d) at 2.
    change (fold_left _ ?s ?d)
      with (set_all (fun k => prefix ++ slot ++ k)%string s d).
    apply (set_all_rekey _ (append_injective prefix)
             (fun k => "" ++ slot ++ k)%string).
  - cbn [unpack_slot]. now apply unpack_items_prefix.
Qed.

Lemma unpack_slots_prefix prefix fs :
  Forall (fun sv => field_ok prefix_commutes (snd sv)) fs ->
  forall acc,
    unpack_slots prefix fs (map (rekey (String.append prefix)) acc)
    = map (rekey (String.append prefix)) (unpack_slots "" fs acc).
Proof.
  induction 1 as [|[slot v] fs Hv _ IH]; intros acc; cbn [unpack_slots];
    [reflexivity|].
  now rewrite unpack_slot_prefix, IH.
Qed.

(** X3: the prefix only renames.  The Series for a prefix is the Series
    for the empty prefix with the prefix put before every label: same
    entries, same order, same values, also when keys collide.  So passing
    the prefix down (as for the items of a list) and adding it afterwards
    (as for a nested message) give the same result. *)
Theorem unpack_message_prefix (msg : value) (prefix : string) :
  unpack_message msg prefix
  = map (rekey (String.append prefix)) (unpack_message msg "").
Proof.
  revert prefix. change (prefix_commutes msg).
  induction msg as [v Hv|fields IH] using value_ind_fields; intros prefix.
  - destruct v; try discriminate; reflexivity.
  - rewrite !unpack_message_Msg.
    now rewrite <- (unpack_slots_prefix prefix fields IH []).
Qed.

(* ================================================================== *)
(** * Further properties of [join_csv_files] *)
(* ================================================================== *)

(** X5: [join_csv_files] reads only the files whose name ends in [.csv]
    and contains [rosbag2]; any other entry of the directory changes
    nothing.  In particular the file [data.csv] it writes is not read
    back when it runs again on the same directory. *)
Theorem join_csv_files_ignores_other_files (sort : sorter)
    (before after : csv_directory) (name : string) (df : DataFrame) :
  is_bag_csv name = false ->
  join_csv_files sort (before ++ (name, df) :: after)
  = join_csv_files sort (before ++ after)
  /\ is_bag_csv "data.csv" = false.
Proof.
  intros Hname. split; [|reflexivity].
  unfold join_csv_files, csv_dataframes.
  rewrite !filter_app. cbn [filter fst]. now rewrite Hname.
Qed.

Lemma join_csv_files_ignores_other_files_witness :
  is_bag_csv "data.csv" = false
  /\ join_csv_files reversing_sort (merge_directory ++ ("data.csv", table_a) :: [])
     = join_csv_files reversing_sort (merge_directory ++ []).
Proof.
  split; [reflexivity|].
  apply (join_csv_files_ignores_other_files reversing_sort merge_directory []
           "data.csv" table_a).
  reflexivity.
Defined.

Lemma add_labels_NoDup (new : list string) : forall acc,
  NoDup acc -> NoDup (add_labels acc new).
Proof.
  unfold add_labels.
  induction new as [|c new IH]; intros acc Hacc; cbn [fold_left]; [exact Hacc|].
  apply IH. destruct (mem_string c acc) eqn:Hc; [exact Hacc|].
  apply NoDup_app; [exact Hacc | apply NoDup_singleton|].
  intros x Hx [<-|[]]. apply mem_string_In in Hx. congruence.
Qed.

Lemma union_columns_NoDup (dfs : list DataFrame) : NoDup (union_columns dfs).
Proof.
  unfold union_columns. generalize (@NoDup_nil string).
  generalize (@nil string).
  induction dfs as [|df dfs IH]; intros acc Hacc; cbn [fold_left]; [exact Hacc|].
  apply IH. now apply add_labels_NoDup.
Qed.

Lemma stacked_rows_width (cols : list string) (dfs : list DataFrame) :
  Forall (fun r => List.length (snd r) = List.length cols)
    (stacked_rows cols dfs).
Proof.
  apply Forall_forall. intros r Hr. unfold stacked_rows in Hr.
  apply in_flat_map in Hr as [df [_ Hr]].
  apply in_map_iff in Hr as [r0 [<- _]]. cbn. apply length_map.
Qed.

(** X6: the merged table is well formed whatever the inputs: no column
    label occurs twice, and every row has one cell per column. *)
Theorem join_csv_files_rectangular (sort : sorter) (directory : csv_directory) :
  sort_contract sort ->
  csv_dataframes directory <> [] ->
  exists out,
    join_csv_files sort directory = Ok out
    /\ NoDup (columns out)
    /\ Forall (fun r => List.length (snd r) = List.length (columns out))
         (rows out).
Proof.
  intros Hsort Hne. eexists. split; [now apply join_csv_files_Ok|].
  cbn [columns rows]. split; [apply union_columns_NoDup|].
  apply Forall_forall. intros r Hr.
  apply (Permutation_in _ (Permutation_sym (sort_perm sort Hsort _ _))) in Hr.
  revert r Hr. apply Forall_forall. apply stacked_rows_width.
Qed.

Lemma join_csv_files_rectangular_witness :
  sort_contract reversing_sort
  /\ csv_dataframes merge_directory <> []
  /\ exists out,
       join_csv_files reversing_sort merge_directory = Ok out
       /\ NoDup (columns out)
       /\ Forall (fun r => List.length (snd r) = List.length (columns out))
            (rows out).
Proof.
  split; [apply reversing_sort_contract|]. split; [discriminate|].
  apply (join_csv_files_rectangular reversing_sort merge_directory).
  - apply reversing_sort_contract.
  - discriminate.
Defined.

Lemma add_labels_present (new : list string) : forall acc,
  (forall c, In c new -> In c acc) -> add_labels acc new = acc.
Proof.
  unfold add_labels.
  induction new as [|c new IH]; intros acc H; cbn [fold_left]; [reflexivity|].
  assert (Hc : mem_string c acc = true)
    by (apply mem_string_In, H; now left).
  rewrite Hc. apply IH. intros x Hx. apply H. now right.
Qed.

Lemma add_labels_fresh (new : list string) : forall acc,
  NoDup (acc ++ new) -> add_labels acc new = acc ++ new.
Proof.
  unfold add_labels.
  induction new as [|c new IH]; intros acc H; cbn [fold_left].
  - now rewrite app_nil_r.
  - assert (Hc : mem_string c acc = false).
    { destruct (mem_string c acc) eqn:E; [|reflexivity].
      apply mem_string_In in E. apply NoDup_remove_2 in H.
      exfalso. apply H. apply in_or_app. now left. }
    rewrite Hc, IH; rewrite <- app_assoc; [reflexivity | exact H].
Qed.

Lemma union_columns_same (cols : list string) (dfs : list DataFrame) :
  NoDup cols -> dfs <> [] -> Forall (fun df => columns df = cols) dfs ->
  union_columns dfs = cols.
Proof.
  intros Hnd Hne Hall. destruct dfs as [|df dfs]; [congruence|].
  inversion Hall as [|? ? Hdf Hrest]; subst.
  unfold union_columns. cbn [fold_left].
  rewrite add_labels_fresh by exact Hnd. cbn [app].
  clear Hne Hall. induction Hrest as [|df' dfs Hdf' _ IH]; cbn [fold_left];
    [reflexivity|].
  rewrite add_labels_present; [exact IH|].
  intros c Hc. now rewrite Hdf' in Hc.
Qed.

Lemma cells_by_label (cols : list string) : forall cells,
  NoDup cols -> List.length cells = List.length cols ->
  map (cell_at cols cells) cols = cells.
Proof.
  induction cols as [|c cols IH]; intros [|x cells] Hnd Hlen;
    try discriminate; [reflexivity|].
  inversion Hnd as [|? ? Hc Hnd']; subst.
  cbn [map cell_at]. rewrite String.eqb_refl. f_equal.
  transitivity (map (cell_at cols cells) cols);
    [|apply IH; [exact Hnd' | cbn in Hlen; lia]].
  apply map_ext_in. intros c' Hc'. cbn [cell_at].
  destruct (String.eqb_spec c c') as [->|Hne]; [contradiction | reflexivity].
Qed.

Lemma stacked_rows_same (cols : list string) (dfs : list DataFrame) :
  NoDup cols ->
  Forall (fun df => columns df = cols
                    /\ Forall (fun r => List.length (snd r) = List.length cols)
                         (rows df)) dfs ->
  stacked_rows cols dfs = flat_map rows dfs.
Proof.
  intros Hnd Hall. unfold stacked_rows.
  apply flat_map_agree. intros df Hdf.
  rewrite Forall_forall in Hall. destruct (Hall df Hdf) as [-> Hrows].
  transitivity (map (fun r : row => r) (rows df)); [|apply map_id].
  apply map_ext_in. intros [t cells] Hr.
  rewrite Forall_forall in Hrows. specialize (Hrows _ Hr). cbn in Hrows.
  unfold reindex; cbn [fst snd]. now rewrite cells_by_label.
Qed.

(** X7: tables that all have the same columns (pairwise different labels,
    one cell per column in every row) are appended as they are: the
    merged table has these columns, and the rows handed to [sort_index]
    are the rows of the tables, in table order then row order, with their
    timestamps and their nulls: no column is added, no null is introduced
    and none is filled.  (On the timestamps and the nulls; the dtype in
    which a value is stored is not part of the statement.) *)
Theorem join_csv_files_same_columns (sort : sorter) (directory : csv_directory)
    (cols : list string) :
  csv_dataframes directory <> [] ->
  NoDup cols ->
  Forall (fun df => columns df = cols
                    /\ Forall (fun r => List.length (snd r) = List.length cols)
                         (rows df))
    (csv_dataframes directory) ->
  exists out,
    join_csv_files sort directory = Ok out
    /\ columns out = cols
    /\ map row_shape (rows out)
       = map row_shape
           (sort quicksort (flat_map rows (csv_dataframes directory))).
Proof.
  intros Hne Hnd Hall. eexists.
  split; [now apply join_csv_files_Ok|]. cbn [columns rows].
  assert (Hcols : union_columns (csv_dataframes directory) = cols).
  { apply union_columns_same; try assumption.
    eapply Forall_impl; [|exact Hall]. now intros df [H _]. }
  split; [exact Hcols|].
  rewrite Hcols. now rewrite stacked_rows_same.
Qed.

Lemma join_csv_files_same_columns_witness :
  csv_dataframes [("rosbag2_a.csv", table_a); ("rosbag2_a2.csv", table_a_later)] <> []
  /\ NoDup ["a_x"; "a_y"]%string
  /\ exists out,
       join_csv_files shortcut_sort
         [("rosbag2_a.csv", table_a); ("rosbag2_a2.csv", table_a_later)] = Ok out
       /\ columns out = ["a_x"; "a_y"]%string
       /\ map row_shape (rows out)
          = map row_shape
              (shortcut_sort quicksort
                 (flat_map rows
                    (csv_dataframes
                       [("rosbag2_a.csv", table_a);
                        ("rosbag2_a2.csv", table_a_later)]))).
Proof.
  assert (Hnd : NoDup ["a_x"; "a_y"]%string).
  { repeat constructor; cbn; intuition discriminate. }
  split; [discriminate|]. split; [exact Hnd|].
  apply (join_csv_files_same_columns shortcut_sort
           [("rosbag2_a.csv", table_a); ("rosbag2_a2.csv", table_a_later)]
           ["a_x"; "a_y"]%string).
  - discriminate.
  - exact Hnd.
  - repeat constructor.
Defined.

(* ================================================================== *)
(** * Further properties of the readers and of the batch *)
(* ================================================================== *)

(** X8: the two readers agree.  On every bag they print the same lines,
    and the list [read_msg_data_from_bag] returns is the [message] column
    of the frame [read_msg_from_bag_as_dataframe] returns (the empty list
    when that one returns the empty list).  For a bag that opens, the
    frame has one row per record of the topic, in the order of the bag,
    indexed by the timestamp of the record, and no message of another
    topic. *)
Theorem readers_agree (st : storage) (bag_path topic_name : string) :
  fst (read_msg_data_from_bag st bag_path topic_name)
  = fst (read_msg_from_bag_as_dataframe st bag_path topic_name)
  /\ snd (read_msg_data_from_bag st bag_path topic_name)
     = Ok match snd (read_msg_from_bag_as_dataframe st bag_path topic_name) with
          | Ok (MessageFrame msgs) => map snd msgs
          | _ => []
          end
  /\ (forall records,
        st bag_path = Ok records ->
        exists msgs,
          read_msg_from_bag_as_dataframe st bag_path topic_name
          = ([], Ok (MessageFrame msgs))
          /\ List.length msgs
             = count_occ string_dec (map rec_topic records) topic_name
          /\ (forall t m,
                In (t, m) msgs
                <-> In {| rec_topic := topic_name; rec_msg := m; rec_time := t |}
                      records)).
Proof.
  unfold read_msg_data_from_bag, read_msg_from_bag_as_dataframe.
  destruct (st bag_path) as [records|e] eqn:Hst; cbn [fst snd].
  - split; [reflexivity|]. split.
    + unfold topic_messages. now rewrite map_map.
    + intros records' E. injection E as <-.
      exists (topic_messages topic_name records).
      split; [reflexivity|]. split.
      * unfold topic_messages. rewrite length_map. clear Hst.
        induction records as [|r rs IH]; [reflexivity|].
        cbn [filter map count_occ]. unfold on_topic at 1.
        destruct (string_dec (rec_topic r) topic_name) as [E|E].
        -- rewrite (proj2 (String.eqb_eq _ _) E). cbn [List.length].
           now rewrite IH.
        -- now rewrite (proj2 (String.eqb_neq _ _) E).
      * intros t m. unfold topic_messages. rewrite in_map_iff. split.
        -- intros [[tp mg tm] [E Hin]]. cbn in E. injection E as <- <-.
           apply filter_In in Hin as [Hin Htopic].
           unfold on_topic in Htopic; cbn in Htopic.
           apply String.eqb_eq in Htopic. now subst.
        -- intros Hin. eexists. split; [|apply filter_In; split; [exact Hin|]].
           ++ reflexivity.
           ++ unfold on_topic; cbn. apply String.eqb_refl.
  - split; [reflexivity|]. split; [reflexivity|]. discriminate.
Qed.

(** X9: the batch and the table builder build the same table.  For a bag
    that opens and whose messages of the topic have pairwise different
    timestamps, the table [distribute_csv_files.main] writes (columns put
    side by side with [pd.concat(axis=1)]) is the table
    [read_unpackaged_message_from_bag_as_dataframe] returns (columns
    joined on the index). *)
Theorem batch_table_is_builder_table (st : storage) (conv : conversion)
    (bag_path : string) (records : list bag_record) :
  st bag_path = Ok records ->
  NoDup (map fst (topic_messages (conv_topic conv) records)) ->
  exists df,
    read_unpackaged_message_from_bag_as_dataframe st bag_path
      (conv_topic conv) conv = ([], Ok df)
    /\ snd (process_bag st conv bag_path)
       = Ok (output_file_of bag_path conv, df).
Proof.
  intros Hst Hnd.
  unfold read_unpackaged_message_from_bag_as_dataframe, process_bag,
    read_msg_from_bag_as_dataframe.
  rewrite Hst. cbn [getitem_message snd].
  eexists. split; [reflexivity|]. f_equal. f_equal.
  generalize dependent (topic_messages (conv_topic conv) records).
  intros msgs Hnd.
  destruct msgs as [|tm rest] eqn:E; [reflexivity|].
  rewrite <- E in *. rewrite apply_unpack_Expanded by (rewrite E; discriminate).
  cbn [concat_columns join_on_index columns rows]. f_equal.
  set (rs := map _ msgs).
  assert (Hidx : map fst msgs = map fst rs)
    by (unfold rs; rewrite map_map; now apply map_ext).
  rewrite Hidx. symmetry. apply joined_rows_unique. now rewrite <- Hidx.
Qed.

Lemma batch_table_is_builder_table_witness :
  key_sets_storage "run/rosbag2_0.db3"
  = Ok [mkRecord "/t" msg_a 1; mkRecord "/other" msg_b 5; mkRecord "/t" msg_b 2]
  /\ exists df,
       read_unpackaged_message_from_bag_as_dataframe key_sets_storage
         "run/rosbag2_0.db3" "/t" plain_conversion = ([], Ok df)
       /\ snd (process_bag key_sets_storage plain_conversion "run/rosbag2_0.db3")
          = Ok (output_file_of "run/rosbag2_0.db3" plain_conversion, df).
Proof.
  split; [reflexivity|].
  apply (batch_table_is_builder_table key_sets_storage plain_conversion
           "run/rosbag2_0.db3"
           [mkRecord "/t" msg_a 1; mkRecord "/other" msg_b 5;
            mkRecord "/t" msg_b 2] eq_refl).
  cbn. repeat constructor; cbn; intuition discriminate.
Defined.

Lemma outputs_of_spec (st : storage) (conv : conversion) (bag_path : string) :
  outputs_of st conv bag_path
  = match st bag_path with
    | Raise _ => []
    | Ok records =>
        [(output_file_of bag_path conv,
          concat_columns (map fst (topic_messages (conv_topic conv) records))
            (apply_unpack (conv_prefix conv)
               (topic_messages (conv_topic conv) records)))]
    end.
Proof.
  unfold outputs_of, process_bag, read_msg_from_bag_as_dataframe.
  now destruct (st bag_path).
Qed.

Lemma main_step_stdout (st : storage) (conv : conversion) (w : world)
    (bag_path : string) :
  exists printed, stdout (main_step st conv w bag_path) = stdout w ++ printed.
Proof.
  unfold main_step.
  destruct (process_bag st conv bag_path) as [printed [file|e]]; cbn;
    eexists; reflexivity.
Qed.

Lemma bag_loop_stdout (st : storage) (conv : conversion)
    (bag_files : list string) : forall w,
  exists printed,
    stdout (fold_left (main_step st conv) bag_files w) = stdout w ++ printed.
Proof.
  induction bag_files as [|b bs IH]; intros w; cbn [fold_left].
  - exists []. now rewrite app_nil_r.
  - destruct (IH (main_step st conv w b)) as [p2 ->].
    destruct (main_step_stdout st conv w b) as [p1 ->].
    exists (p1 ++ p2). now rewrite app_assoc.
Qed.

(** X10: what the batch writes.  For every list of conversions and of
    bags the batch ends normally; it writes, conversion by conversion and
    bag by bag, one table for each bag that opens (also when the bag has
    no message of the topic), at the path [output_file_of], and nothing
    for a bag that does not open; it keeps what was printed and written
    before. *)
Theorem main_loop_outputs (st : storage) (conversion_keywords : list conversion)
    (bag_files : list string) (w : world) :
  written (main_loop st conversion_keywords bag_files w)
  = written w
    ++ flat_map
         (fun conv =>
            flat_map
              (fun bag_path =>
                 match st bag_path with
                 | Raise _ => []
                 | Ok records =>
                     [(output_file_of bag_path conv,
                       concat_columns
                         (map fst (topic_messages (conv_topic conv) records))
                         (apply_unpack (conv_prefix conv)
                            (topic_messages (conv_topic conv) records)))]
                 end)
              bag_files)
         conversion_keywords
  /\ exists printed,
       stdout (main_loop st conversion_keywords bag_files w)
       = stdout w ++ printed.
Proof.
  split.
  - rewrite main_loop_written. f_equal.
    apply flat_map_agree. intros conv _.
    apply flat_map_agree. intros b _. apply outputs_of_spec.
  - unfold main_loop. revert w.
    induction conversion_keywords as [|conv convs IH]; intros w;
      cbn [fold_left].
    + exists []. now rewrite app_nil_r.
    + destruct (IH (fold_left (main_step st conv) bag_files w)) as [p2 ->].
      destruct (bag_loop_stdout st conv bag_files w) as [p1 ->].
      exists (p1 ++ p2). now rewrite app_assoc.
Qed.

(* ------------------------------------------------------------------ *)
(** ** The path of the table a bag gives *)
(* ------------------------------------------------------------------ *)

Lemma lacks_app (c : ascii) (a b : string) :
  lacks c (a ++ b) = lacks c a && lacks c b.
Proof.
  induction a as [|x a IH]; cbn; [reflexivity|].
  now rewrite IH, andb_assoc.
Qed.

Lemma split_no_slash (tail : string) :
  lacks "/" tail = true -> split_at_last_slash tail = (""%string, tail).
Proof.
  induction tail as [|c t IH]; cbn; [reflexivity|].
  intros H. apply andb_true_iff in H as [Hc Ht].
  rewrite (IH Ht). unfold is_slash.
  apply negb_true_iff in Hc. now rewrite Hc.
Qed.

Lemma split_last_slash (dir tail : string) :
  lacks "/" tail = true ->
  split_at_last_slash (dir ++ "/" ++ tail) = ((dir ++ "/")%string, tail).
Proof.
  intros Ht. induction dir as [|c dir IH].
  - cbn. now rewrite (split_no_slash tail Ht).
  - cbn [String.append] in IH |- *. cbn [split_at_last_slash].
    rewrite IH. now destruct dir.
Qed.

Lemma rstrip_append_slash (s : string) :
  rstrip_slash (s ++ "/") = rstrip_slash s.
Proof.
  induction s as [|c s IH]; [reflexivity|].
  cbn [String.append rstrip_slash]. now rewrite IH.
Qed.

Lemma endswith_slash_cons (c : ascii) (s : string) :
  endswith (String c s) "/"
  = match s with
    | "" => is_slash c
    | _ => endswith s "/"
    end.
Proof.
  unfold endswith. destruct s as [|d s].
  - cbn. unfold is_slash. now destruct (Ascii.eqb c "/").
  - cbn [String.length Nat.leb Nat.sub substring andb].
    now rewrite Nat.sub_0_r.
Qed.

Lemma no_trailing_slash (s : string) :
  rstrip_slash s = s -> s <> ""%string -> endswith s "/" = false.
Proof.
  induction s as [|c s IH]; [congruence|]. intros H _.
  rewrite endswith_slash_cons. cbn [rstrip_slash] in H.
  destruct s as [|d s].
  - cbn in H. now destruct (is_slash c).
  - apply IH; [|discriminate].
    destruct (rstrip_slash (String d s)) as [|x r] eqn:E.
    + destruct (is_slash c); congruence.
    + congruence.
Qed.

Lemma prefix_first_char (c x : ascii) (old rest : string) :
  Ascii.eqb x c = false -> String.prefix (String c old) (String x rest) = false.
Proof.
  intros H. destruct (String.prefix (String c old) (String x rest)) eqn:E;
    [|reflexivity].
  apply prefix_spec in E as [r Hr]. cbn in Hr. injection Hr as Hx _.
  subst. now rewrite Ascii.eqb_refl in H.
Qed.

Lemma remove_extension (base : string) :
  lacks "." base = true -> remove_all ".db3" 0 (base ++ ".db3") = base.
Proof.
  induction base as [|c b IH]; [reflexivity|].
  intros H. cbn in H. apply andb_true_iff in H as [Hc Hb].
  apply negb_true_iff in Hc.
  cbn [String.append remove_all].
  rewrite (prefix_first_char "." c "db3" (b ++ ".db3") Hc).
  now rewrite (IH Hb).
Qed.

(** X11: where the table of a bag goes.  For a bag [dir/base.db3], with
    [base] free of slashes and dots and [dir] not empty and without a
    trailing slash, the batch writes the table to
    [dir/../base<output_file>]: in the parent of the directory of the
    bag, named after the bag without its extension. *)
Theorem output_file_in_parent (dir base : string) (conv : conversion) :
  dir <> ""%string -> rstrip_slash dir = dir ->
  lacks "/" base = true -> lacks "." base = true ->
  output_file_of (dir ++ "/" ++ base ++ ".db3") conv
  = (dir ++ "/" ++ "../" ++ base ++ conv_output_file conv)%string.
Proof.
  intros Hdir Hstrip Hslash Hdot.
  assert (Htail : lacks "/" (base ++ ".db3") = true)
    by (rewrite lacks_app, Hslash; reflexivity).
  unfold output_file_of, dirname, basename.
  rewrite (split_last_slash dir (base ++ ".db3") Htail). cbn [fst snd].
  rewrite rstrip_append_slash, Hstrip, (remove_extension base Hdot).
  destruct dir as [|c dir]; [congruence|].
  unfold path_join.
  change ("../" ++ base ++ conv_output_file conv)%string
    with (String "." ("./" ++ base ++ conv_output_file conv)%string).
  rewrite (prefix_first_char "/" "." "" _ eq_refl).
  rewrite (no_trailing_slash (String c dir) Hstrip Hdir).
  reflexivity.
Qed.

Lemma output_file_in_parent_witness :
  "data/exp/rosbag2_run"%string <> ""%string
  /\ rstrip_slash "data/exp/rosbag2_run" = "data/exp/rosbag2_run"%string
  /\ lacks "/" "rosbag2_run_0" = true
  /\ lacks "." "rosbag2_run_0" = true
  /\ output_file_of "data/exp/rosbag2_run/rosbag2_run_0.db3" plain_conversion
     = "data/exp/rosbag2_run/../rosbag2_run_0t.csv"%string.
Proof.
  split; [discriminate|]. split; [reflexivity|].
  split; [reflexivity|]. split; [reflexivity|].
  apply (output_file_in_parent "data/exp/rosbag2_run" "rosbag2_run_0"
           plain_conversion); [discriminate | reflexivity..].
Defined.

(* ================================================================== *)
(** * Further properties of [find_rosbag_files] *)
(* ================================================================== *)

Lemma fs_node_ind_nested (P : fs_node -> Prop)
    (Hfile : P FsFile)
    (Hdir : forall entries,
        Forall (fun e => P (snd e)) entries -> P (FsDir entries)) :
  forall n, P n.
Proof.
  fix IH 1. intros [|entries]; [exact Hfile|].
  apply Hdir. revert entries. fix IHe 1. intros [|[name child] es].
  - constructor.
  - constructor; [apply IH | apply IHe].
Qed.

Lemma os_walk_FsDir (root : fs_path) (entries : list (string * fs_node)) :
  os_walk root (FsDir entries)
  = (root, dir_names entries, file_names entries) :: walk_entries root entries.
Proof.
  cbn [os_walk]. f_equal.
  induction entries as [|[name child] es IH]; [reflexivity|].
  cbn [walk_entries]. now rewrite <- IH.
Qed.

Lemma os_walk_below (n : fs_node) : walk_stays_below n.
Proof.
  induction n as [|entries IH] using fs_node_ind_nested; intros root visit.
  - intros [].
  - rewrite os_walk_FsDir. intros [<-|Hin].
    + exists []. cbn. now rewrite app_nil_r.
    + induction IH as [|[name child] es Hchild _ IHes]; [destruct Hin|].
      cbn [walk_entries] in Hin. apply in_app_or in Hin as [Hin|Hin].
      * destruct (Hchild _ _ Hin) as [names ->].
        exists (name :: names). now rewrite <- app_assoc.
      * now apply IHes.
Qed.

(** X12: [find_rosbag_files] returns only files whose name ends in [.db3]
    and that lie in [from_dir] or below it; when [from_dir] does not
    exist, or is a file, it returns the empty list. *)
Theorem find_rosbag_files_within (cwd : position) (from_dir : fs_path) :
  Forall
    (fun p =>
       exists names file,
         p = from_dir ++ names ++ [file] /\ endswith file ".db3" = true)
    (find_rosbag_files cwd from_dir)
  /\ match resolve cwd from_dir with
     | None => find_rosbag_files cwd from_dir = []
     | Some top =>
         is_dir (here top) = false -> find_rosbag_files cwd from_dir = []
     end.
Proof.
  split.
  - apply Forall_forall. intros p Hp. unfold find_rosbag_files in Hp.
    destruct (resolve cwd from_dir) as [top|]; [|destruct Hp].
    apply in_flat_map in Hp as [[[root dirs] files] [Hv Hp]].
    cbn [fst snd] in Hp.
    apply in_bag_files_in in Hp as [file [_ [Hext [_ ->]]]].
    destruct (os_walk_below _ _ _ Hv) as [names Hroot]. cbn in Hroot.
    exists names, file. split; [|exact Hext].
    now rewrite Hroot, <- app_assoc.
  - unfold find_rosbag_files.
    destruct (resolve cwd from_dir) as [top|]; [|reflexivity].
    intros Hfile. now destruct (here top).
Qed.

(* ================================================================== *)
(** * Properties of the batch of [join_csv_files.main] *)
(* ================================================================== *)

Lemma write_entry_dataframes (listing : csv_directory) (name : string)
    (df : DataFrame) :
  is_bag_csv name = false ->
  csv_dataframes (write_entry listing name df) = csv_dataframes listing.
Proof.
  intros Hname. unfold write_entry, csv_dataframes.
  destruct (existsb (has_name name) listing).
  - f_equal. induction listing as [|[n t] l IH]; [reflexivity|].
    cbn [map]. destruct (has_name name (n, t)) eqn:Hn; cbn [filter fst].
    + unfold has_name in Hn; cbn [fst] in Hn.
      apply String.eqb_eq in Hn. subst n. now rewrite Hname, IH.
    + now rewrite IH.
  - rewrite filter_app. cbn [filter fst]. rewrite Hname.
    now rewrite app_nil_r.
Qed.

Lemma join_csv_files_on_dataframes (realdir : string -> string) (sort : sorter)
    (fs : csv_store) (directory : string) (d : string) :
  csv_dataframes (fst (join_csv_files_on realdir sort fs directory "data.csv") d)
  = csv_dataframes (fs d).
Proof.
  unfold join_csv_files_on.
  destruct (join_csv_files sort (fs (realdir directory))); [|reflexivity].
  cbn [fst]. unfold to_csv.
  destruct (String.eqb d (realdir directory)); [|reflexivity].
  now apply write_entry_dataframes.
Qed.

Lemma join_csv_files_same_dataframes (sort : sorter) (l1 l2 : csv_directory) :
  csv_dataframes l1 = csv_dataframes l2 ->
  join_csv_files sort l1 = join_csv_files sort l2.
Proof. unfold join_csv_files. now intros ->. Qed.

Lemma join_main_dataframes (realdir : string -> string) (sort : sorter)
    (bag_files : list string) : forall fs d,
  csv_dataframes (fst (join_main realdir sort fs bag_files) d)
  = csv_dataframes (fs d).
Proof.
  induction bag_files as [|b bs IH]; intros fs d; cbn [join_main];
    [reflexivity|].
  destruct (join_csv_files_on realdir sort fs (dirname b ++ "/..")%string "data.csv")
    as [fs' [u|e]] eqn:E.
  - rewrite IH. rewrite <- (join_csv_files_on_dataframes realdir sort fs
                              (dirname b ++ "/..")%string d).
    now rewrite E.
  - cbn [fst]. rewrite <- (join_csv_files_on_dataframes realdir sort fs
                             (dirname b ++ "/..")%string d).
    now rewrite E.
Qed.

Lemma join_main_app (realdir : string -> string) (sort : sorter)
    (l1 l2 : list string) : forall fs,
  join_main realdir sort fs (l1 ++ l2)
  = match join_main realdir sort fs l1 with
    | (fs', Ok _) => join_main realdir sort fs' l2
    | (fs', Raise e) => (fs', Raise e)
    end.
Proof.
  induction l1 as [|b bs IH]; intros fs; cbn [app join_main]; [reflexivity|].
  destruct (join_csv_files_on realdir sort fs (dirname b ++ "/..")%string "data.csv")
    as [fs' [u|e]]; [apply IH | reflexivity].
Qed.

Lemma join_main_all_joined (realdir : string -> string) (sort : sorter)
    (bag_files : list string) : forall fs,
  Forall (fun b => csv_dataframes (fs (joined_directory realdir b)) <> [])
    bag_files ->
  snd (join_main realdir sort fs bag_files) = Ok tt.
Proof.
  induction bag_files as [|b bs IH]; intros fs Hall; cbn [join_main];
    [reflexivity|].
  inversion Hall as [|? ? Hb Hbs]; subst.
  unfold join_csv_files_on at 1. unfold joined_directory in Hb.
  rewrite (join_csv_files_Ok sort _ Hb).
  apply IH. eapply Forall_impl; [|exact Hbs]. intros b' Hb'.
  unfold to_csv.
  destruct (String.eqb (joined_directory realdir b')
              (realdir (dirname b ++ "/..")%string)); [|exact Hb'].
  now rewrite write_entry_dataframes.
Qed.

(** X13: the batch of [join_csv_files.main] stops at the first bag whose
    directory has no table to join.  When the directories of the bags
    before it all have a table, the batch joins those, then raises the
    [ValueError] of [pd.concat] at that bag, and the bags after it are not
    processed: the disk is as after the bags before it.  What
    [join_csv_files] reads is never changed by the batch: the [data.csv] it
    writes is not one of its inputs. *)
Theorem join_main_stops_at_empty_directory (realdir : string -> string)
    (sort : sorter) (fs : csv_store) (before after : list string)
    (bag_path : string) :
  Forall (fun b => csv_dataframes (fs (joined_directory realdir b)) <> [])
    before ->
  csv_dataframes (fs (joined_directory realdir bag_path)) = [] ->
  join_main realdir sort fs (before ++ bag_path :: after)
  = (fst (join_main realdir sort fs before),
     Raise (ValueError "No objects to concatenate"))
  /\ snd (join_main realdir sort fs before) = Ok tt
  /\ (forall bag_files d,
        csv_dataframes (fst (join_main realdir sort fs bag_files) d)
        = csv_dataframes (fs d)).
Proof.
  intros Hbefore Hbad.
  pose proof (join_main_all_joined realdir sort before fs Hbefore) as Hok.
  split; [|split; [exact Hok | intros; apply join_main_dataframes]].
  rewrite join_main_app.
  destruct (join_main realdir sort fs before) as [fs' r] eqn:E.
  cbn [snd] in Hok. subst r. cbn [fst join_main].
  unfold join_csv_files_on.
  assert (Hempty : csv_dataframes (fs' (realdir (dirname bag_path ++ "/..")%string))
                   = []).
  { pose proof (join_main_dataframes realdir sort before fs
                  (realdir (dirname bag_path ++ "/..")%string)) as H.
    rewrite E in H. cbn [fst] in H. now rewrite H. }
  unfold join_csv_files. now rewrite Hempty.
Qed.

Lemma join_main_stops_at_empty_directory_witness :
  Forall (fun b => csv_dataframes
                     (one_run_store (joined_directory (fun d => d) b)) <> [])
    ["run/a/x.db3"]%string
  /\ csv_dataframes (one_run_store (joined_directory (fun d => d) "other/b/y.db3"))
     = []
  /\ join_main (fun d => d) reversing_sort one_run_store
       (["run/a/x.db3"] ++ "other/b/y.db3" :: ["run/a/z.db3"])
     = (fst (join_main (fun d => d) reversing_sort one_run_store
               ["run/a/x.db3"]%string),
        Raise (ValueError "No objects to concatenate")).
Proof.
  assert (H1 : Forall (fun b => csv_dataframes
                     (one_run_store (joined_directory (fun d => d) b)) <> [])
                 ["run/a/x.db3"]%string)
    by (repeat constructor; discriminate).
  split; [exact H1|]. split; [reflexivity|].
  apply (join_main_stops_at_empty_directory (fun d => d) reversing_sort
           one_run_store ["run/a/x.db3"]%string ["run/a/z.db3"]%string
           "other/b/y.db3" H1 eq_refl).
Defined.

Lemma write_entry_In (listing : csv_directory) (name : string) (df : DataFrame) :
  In (name, df) (write_entry listing name df).
Proof.
  unfold write_entry. destruct (existsb (has_name name) listing) eqn:E.
  - apply existsb_exists in E as [f [Hf Hn]].
    apply in_map_iff. exists f. now rewrite Hn.
  - apply in_or_app. right. now left.
Qed.

(** A table written stays, as long as the later joins of its directory
    give the same table. *)
Lemma join_main_keeps (realdir : string -> string) (sort : sorter)
    (bag_files : list string) : forall fs d df,
  In ("data.csv"%string, df) (fs d) ->
  join_csv_files sort (fs d) = Ok df ->
  In ("data.csv"%string, df) (fst (join_main realdir sort fs bag_files) d).
Proof.
  induction bag_files as [|b bs IH]; intros fs d df Hin Hjoin;
    cbn [join_main]; [exact Hin|].
  unfold join_csv_files_on.
  destruct (join_csv_files sort (fs (realdir (dirname b ++ "/..")%string)))
    as [df'|e] eqn:E; [|exact Hin].
  apply IH.
  - unfold to_csv. destruct (String.eqb_spec d (realdir (dirname b ++ "/..")%string))
      as [->|Hne]; [|exact Hin].
    assert (df' = df) by congruence. subst df'. apply write_entry_In.
  - rewrite <- Hjoin. apply join_csv_files_same_dataframes.
    unfold to_csv. destruct (String.eqb d (realdir (dirname b ++ "/..")%string));
      [|reflexivity].
    now apply write_entry_dataframes.
Qed.

(** X14: when the directory of every bag has a table to join, the batch
    of [join_csv_files.main] ends normally, and afterwards the directory
    joined for each bag holds a file [data.csv] with the merge of the
    tables that were in that directory at the start, also when several
    bags share the directory. *)
Theorem join_main_writes_every_merge (realdir : string -> string)
    (sort : sorter) (bag_files : list string) : forall fs : csv_store,
  Forall (fun b => csv_dataframes (fs (joined_directory realdir b)) <> [])
    bag_files ->
  snd (join_main realdir sort fs bag_files) = Ok tt
  /\ Forall
       (fun b =>
          exists df,
            join_csv_files sort (fs (joined_directory realdir b)) = Ok df
            /\ In ("data.csv"%string, df)
                 (fst (join_main realdir sort fs bag_files)
                    (joined_directory realdir b)))
       bag_files.
Proof.
  intros fs Hall. split; [now apply join_main_all_joined|].
  revert fs Hall.
  induction bag_files as [|b bs IH]; intros fs Hall; [constructor|].
  inversion Hall as [|? ? Hb Hbs]; subst.
  cbn [join_main]. unfold join_csv_files_on.
  fold (joined_directory realdir b).
  destruct (join_csv_files sort (fs (joined_directory realdir b)))
    as [df|e] eqn:E;
    [|rewrite (join_csv_files_Ok sort _ Hb) in E; discriminate].
  set (fs1 := to_csv realdir fs (dirname b ++ "/..")%string "data.csv" df).
  assert (Hsame : forall d, csv_dataframes (fs1 d) = csv_dataframes (fs d)).
  { intros d. unfold fs1, to_csv.
    destruct (String.eqb d (realdir (dirname b ++ "/..")%string));
      [|reflexivity].
    now apply write_entry_dataframes. }
  constructor.
  - exists df. split; [exact E|].
    apply join_main_keeps.
    + unfold fs1, to_csv. fold (joined_directory realdir b).
      rewrite String.eqb_refl. apply write_entry_In.
    + rewrite <- E. apply join_csv_files_same_dataframes. apply Hsame.
  - assert (Hbs1 : Forall (fun b' => csv_dataframes
                             (fs1 (joined_directory realdir b')) <> []) bs).
    { eapply Forall_impl; [|exact Hbs]. intros b' Hb'. now rewrite Hsame. }
    specialize (IH fs1 Hbs1).
    eapply Forall_impl; [|exact IH]. intros b' [df' [Hj Hin]].
    exists df'. split; [|exact Hin].
    rewrite <- Hj. apply join_csv_files_same_dataframes.
    symmetry. apply Hsame.
Qed.

Lemma join_main_writes_every_merge_witness :
  Forall (fun b => csv_dataframes
                     (one_run_store (joined_directory (fun d => d) b)) <> [])
    ["run/a/x.db3"; "run/a/z.db3"]%string
  /\ snd (join_main (fun d => d) reversing_sort one_run_store
            ["run/a/x.db3"; "run/a/z.db3"]%string) = Ok tt
  /\ Forall
       (fun b =>
          exists df,
            join_csv_files reversing_sort
              (one_run_store (joined_directory (fun d => d) b)) = Ok df
            /\ In ("data.csv"%string, df)
                 (fst (join_main (fun d => d) reversing_sort one_run_store
                         ["run/a/x.db3"; "run/a/z.db3"]%string)
                    (joined_directory (fun d => d) b)))
       ["run/a/x.db3"; "run/a/z.db3"]%string.
Proof.
  assert (H : Forall (fun b => csv_dataframes
                     (one_run_store (joined_directory (fun d => d) b)) <> [])
                ["run/a/x.db3"; "run/a/z.db3"]%string)
    by (repeat constructor; discriminate).
  split; [exact H|].
  apply (join_main_writes_every_merge (fun d => d) reversing_sort
           ["run/a/x.db3"; "run/a/z.db3"]%string one_run_store H).
Defined.

(* ================================================================== *)
(** * The table builder on a bag that cannot be opened *)
(* ================================================================== *)

(** X15: [read_unpackaged_message_from_bag_as_dataframe] does not survive
    a bag that cannot be opened: the reader prints the failure and returns
    the empty list, and indexing that list by ["message"] raises a
    [TypeError]; no table is returned, whatever the topic and the
    conversion. *)
Theorem table_builder_raises_on_unavailable_bag (st : storage)
    (bag_path topic_name : string) (conv : conversion) (e : exn) :
  st bag_path = Raise e ->
  read_unpackaged_message_from_bag_as_dataframe st bag_path topic_name conv
  = (["Failed to open bag file: " ++ exn_message e]%string,
     Raise (TypeError "list indices must be integers or slices, not str")).
Proof.
  intros Hst.
  unfold read_unpackaged_message_from_bag_as_dataframe,
    read_msg_from_bag_as_dataframe.
  now rewrite Hst.
Qed.

Lemma table_builder_raises_on_unavailable_bag_witness :
  key_sets_storage "run/missing.db3"
  = Raise (RuntimeError "No storage could be initialized")
  /\ read_unpackaged_message_from_bag_as_dataframe key_sets_storage
       "run/missing.db3" "/t" plain_conversion
     = (["Failed to open bag file: "
         ++ exn_message (RuntimeError "No storage could be initialized")]%string,
        Raise (TypeError "list indices must be integers or slices, not str")).
Proof.
  split; [reflexivity|].
  apply (table_builder_raises_on_unavailable_bag key_sets_storage
           "run/missing.db3" "/t" plain_conversion
           (RuntimeError "No storage could be initialized")).
  reflexivity.
Defined.
